(** * SCIM adapters: PATCH dispatch, path normalisation, User and Group handlers

    A shallow embedding of [django_scim/adapters.py].

    Python values that reach the adapters come from a decoded JSON request
    body, so they are modelled by the type [json] below.  Python [str] values
    are Rocq strings (bytes); the text handled here (op codes, attribute
    names, ids) is ASCII.  JSON numbers are restricted to integers.

    Python exceptions are values of [exn].  A method that mutates [self.obj]
    and may raise is a function from the state to an outcome together with
    the state reached, so that what was mutated before a [raise] stays
    mutated, as in Python. *)

From Stdlib Require Import ZArith String Ascii List Bool Lia OrderedTypeEx.
From stdpp Require Import base option list gmap sets strings sorting.

Set Warnings "-register-all,-clear-no-such-hyp".

Local Open Scope string_scope.
Local Open Scope list_scope.

(** ** Python values *)

(** A decoded JSON value.  A dict is the list of its items in insertion
    order, with distinct keys. *)
Inductive json : Type :=
| JNull
| JBool (b : bool)
| JNum (n : Z)
| JStr (s : string)
| JList (l : list json)
| JDict (d : list (string * json)).

(** Modelled from the spec: the SCIM exception classes [BadRequestError] and
    [NotImplementedError] are declared in [exceptions.py], which is not part
    of the sources at hand; the spec names them as the typed errors of the
    core.  Each carries the arguments its call site passes (the detail, and
    the [scim_type] keyword).  The other constructors are Python built-ins,
    Django's [ValidationError], and whatever a library outside this file
    raises (the filter parser, the database). *)
Inductive exn : Type :=
| BadRequestError (detail : string) (scim_type : option string)
| NotImplementedError (detail : option string)
| ValidationError
| TypeError
| AttributeError
| ValueError
| IndexError
| KeyError
| NameError (name : string)
| LibraryError (what : string).

Inductive result (A : Type) : Type :=
| Ok (a : A)
| Raise (e : exn).

Arguments Ok {A} a.
Arguments Raise {A} e.

(** A double quote, for the messages and the filter suffix that contain one. *)
Definition dq : string := String (ascii_of_nat 34) EmptyString.

(** [bool(x)] *)
Definition truthy (x : json) : bool :=
  match x with
  | JNull => false
  | JBool b => b
  | JNum n => negb (n =? 0)%Z
  | JStr s => negb (String.eqb s EmptyString)
  | JList l => match l with [] => false | _ :: _ => true end
  | JDict d => match d with [] => false | _ :: _ => true end
  end.

Definition is_dict (x : json) : bool :=
  match x with JDict _ => true | _ => false end.

Definition is_str (x : json) : bool :=
  match x with JStr _ => true | _ => false end.

(** [d.get(k)] on a dict: [None] when the key is missing. *)
Fixpoint dict_get (d : list (string * json)) (k : string) : json :=
  match d with
  | [] => JNull
  | (k', v) :: r => if String.eqb k' k then v else dict_get r k
  end.

(** [x.get(k)] on any value: only a dict has the method. *)
Definition py_get (x : json) (k : string) : result json :=
  match x with
  | JDict d => Ok (dict_get d k)
  | _ => Raise AttributeError
  end.

(** [str.lower()] on ASCII text. *)
Definition lower_ascii (c : ascii) : ascii :=
  let n := nat_of_ascii c in
  if (65 <=? n)%nat && (n <=? 90)%nat then ascii_of_nat (n + 32) else c.

Fixpoint lower (s : string) : string :=
  match s with
  | EmptyString => EmptyString
  | String c r => String (lower_ascii c) (lower r)
  end.

(** [x.lower()] on any value: only a str has the method. *)
Definition py_lower (x : json) : result string :=
  match x with
  | JStr s => Ok (lower s)
  | _ => Raise AttributeError
  end.

(** ** State and exceptions *)

Definition M (St A : Type) : Type := St -> result A * St.

Definition ret {St A} (a : A) : M St A := fun st => (Ok a, st).

Definition raise {St A} (e : exn) : M St A := fun st => (Raise e, st).

Definition bind {St A B} (m : M St A) (k : A -> M St B) : M St B :=
  fun st =>
    match m st with
    | (Ok a, st') => k a st'
    | (Raise e, st') => (Raise e, st')
    end.

(** A computation that reads no state: it returns or raises. *)
Definition lift {St A} (r : result A) : M St A := fun st => (r, st).

Definition rbind {A B} (r : result A) (k : A -> result B) : result B :=
  match r with
  | Ok a => k a
  | Raise e => Raise e
  end.

Notation "'do' x <- m 'in' k" := (bind m (fun x => k))
  (at level 10, x pattern, m at level 100, k at level 200).
Notation "'try' x <- r 'in' k" := (rbind r (fun x => k))
  (at level 10, x pattern, r at level 100, k at level 200).

(** [for x in l: body(x)] *)
Fixpoint for_each {St A} (l : list A) (body : A -> M St unit) : M St unit :=
  match l with
  | [] => ret tt
  | x :: r => do _ <- body x in for_each r body
  end.

(** ** Attribute paths *)

(** The 3-tuple (attr, subattr, uri). *)
Definition attr_path : Type := string * option string * option string.

Definition attr_map : Type := list (attr_path * string).

(** Modelled from the spec: [types.ComplexAttrPath] is declared in
    [types.py], which is not part of the sources at hand.  The spec describes
    it as the original path string plus the attribute-path fragments the
    resolver extracted, a variant distinct from the 3-tuple; it is used as a
    dict key by [parse_path_and_value], and as an object it is truthy. *)
Inductive scim_path : Type :=
| AttrPath (p : attr_path)
| ComplexAttrPath (path : string) (attr_paths : list attr_path).

Global Instance scim_path_eq_dec : EqDecision scim_path.
Proof. solve_decision. Defined.

(** [key in ATTR_MAP] and [ATTR_MAP.get(key)] for a tuple key. *)
Fixpoint attr_map_get (m : attr_map) (p : attr_path) : option string :=
  match m with
  | [] => None
  | (p', f) :: r => if decide (p' = p) then Some f else attr_map_get r p
  end.

(** A normalised value: the request's value as it came, or the dict keyed by
    resolved paths that [parse_path_and_value] builds for a path-less
    operation. *)
Inductive pyval : Type :=
| VJson (j : json)
| VPaths (d : list (scim_path * json)).

(** [d[k] = v] on an insertion-ordered dict: an existing key keeps its
    position and takes the new value, a new key goes last. *)
Fixpoint dict_setitem (d : list (scim_path * json)) (k : scim_path) (v : json)
  : list (scim_path * json) :=
  match d with
  | [] => [(k, v)]
  | (k', v') :: r =>
      if decide (k' = k) then (k', v) :: r else (k', v') :: dict_setitem r k v
  end.

(** One PATCH operation, read through [operation.get('op')],
    [operation.get('path')] and [operation.get('value')]: a missing key
    reads as [None]. *)
Record operation : Type := Operation {
  get_op : json;
  get_path : json;
  get_value : json
}.

(** ** What the adapters import from outside this repository *)

Record externals : Type := {
  (** [list(AttrPaths(filter_, attr_map))] of scim2_filter_parser: the
      fragments of the filter, or the exception the parser raises. *)
  AttrPaths : string -> attr_map -> result (list attr_path);
  (** [core.validators.EmailValidator()(email)] of Django: [None] when the
      call returns, otherwise the exception it raises. *)
  EmailValidator : json -> option exn;
  (** [int(s)] on a str: [None] when it raises [ValueError]. *)
  int_of_str : string -> option Z;
  (** [s.strip()] *)
  str_strip : string -> string;
  (** [self.obj.save()] of the Django model behind a User and behind a
      Group, given the attributes in memory: [None] when the call returns and
      the row is written, otherwise the exception it raises (a field that
      does not validate, a constraint of the table), in which case no row is
      written. *)
  User_save : gmap string json -> option exn;
  Group_save : gmap string json -> option exn
}.

(** Modelled from the spec: [constants.VALID_PATCH_OPS] is declared in
    [constants.py], which is not part of the sources at hand.  The spec gives
    the fixed vocabulary of three op codes. *)
Definition VALID_PATCH_OPS : list string := ["add"; "remove"; "replace"].

(** ** SCIMMixin *)

(** What a subclass may override: the attribute map and the three handlers.
    [St] is the state a handler works on ([self.obj] and what it reaches). *)
Record adapter (St : Type) : Type := {
  ATTR_MAP : attr_map;
  handle_add : option scim_path -> pyval -> operation -> M St unit;
  handle_remove : option scim_path -> pyval -> operation -> M St unit;
  handle_replace : option scim_path -> pyval -> operation -> M St unit
}.

Arguments ATTR_MAP {St} _.
Arguments handle_add {St} _.
Arguments handle_remove {St} _.
Arguments handle_replace {St} _.

(** The complete filter query that [split_path] builds from a path: the path
    followed by an equality with the empty string. *)
Definition filter_of (path : string) : string :=
  path +:+ " eq " +:+ dq +:+ dq.

Section SCIMMixin.
Context (E : externals) {St : Type} (self : adapter St).

Definition handle_complex_attr_path (path : string) (attr_paths : list attr_path)
  : scim_path :=
  ComplexAttrPath path attr_paths.

(** The concatenation that builds [filter_] needs a str on the left.
    [scim_exceptions] is not a name bound in the module (it imports
    [exceptions]), so the [raise] of the zero-fragment branch stops at the
    name lookup. *)
Definition split_path (path : json) : result scim_path :=
  match path with
  | JStr path =>
      let filter_ := filter_of path in
      try attr_paths <- AttrPaths E filter_ (ATTR_MAP self) in
      match attr_paths with
      | [] => Raise (NameError "scim_exceptions")
      | [p] => Ok (AttrPath p)
      | _ :: _ :: _ => Ok (handle_complex_attr_path path attr_paths)
      end
  | _ => Raise TypeError
  end.

(** The loop [for k, v in value.items(): new_value[self.split_path(k)] = v]. *)
Fixpoint split_items (items : list (string * json))
    (new_value : list (scim_path * json)) : result (list (scim_path * json)) :=
  match items with
  | [] => Ok new_value
  | (k, v) :: r =>
      try p <- split_path (JStr k) in
      split_items r (dict_setitem new_value p v)
  end.

Definition parse_path_and_value (path value : json)
  : result (option scim_path * pyval) :=
  match value with
  | JDict d =>
      if negb (truthy path) then
        try new_value <- split_items d [] in
        Ok (None, VPaths new_value)
      else
        try new_path <- split_path path in
        Ok (Some new_path, VJson value)
  | _ =>
      try new_path <- split_path path in
      Ok (Some new_path, VJson value)
  end.

(** [not path] on a normalised path: [None] is falsy, a 3-tuple and a
    [ComplexAttrPath] object are truthy. *)
Definition path_truthy (path : option scim_path) : bool :=
  match path with
  | None => false
  | Some _ => true
  end.

(** [getattr(self, name)] for the names the dispatcher can build. *)
Definition getattr_handler (name : string)
  : result (option scim_path -> pyval -> operation -> M St unit) :=
  if String.eqb name "handle_add" then Ok (handle_add self)
  else if String.eqb name "handle_remove" then Ok (handle_remove self)
  else if String.eqb name "handle_replace" then Ok (handle_replace self)
  else Raise AttributeError.

Definition unknown_op_msg (op_code : string) : string :=
  "Unknown PATCH op " +:+ dq +:+ op_code +:+ dq.

Definition remove_needs_path_msg : string :=
  dq +:+ "path" +:+ dq +:+ " must be specified during " +:+ dq +:+ "remove"
     +:+ dq +:+ " PATCH calls".

(** The body of the loop of [handle_operations]. *)
Definition handle_operation (operation : operation) : M St unit :=
  let path := get_path operation in
  let value := get_value operation in
  do (path, value) <- lift (parse_path_and_value path value) in
  do op_code <- lift (py_lower (get_op operation)) in
  if negb (bool_decide (op_code ∈ VALID_PATCH_OPS)) then
    raise (BadRequestError (unknown_op_msg op_code) None)
  else if String.eqb op_code "remove" && negb (path_truthy path) then
    raise (BadRequestError remove_needs_path_msg (Some "noTarget"))
  else
    let op_code := "handle_" +:+ op_code in
    do handler <- lift (getattr_handler op_code) in
    handler path value operation.

Definition handle_operations (operations : list operation) : M St unit :=
  for_each operations handle_operation.

End SCIMMixin.

(** The handlers of the base class. *)
Definition SCIMMixin_handler {St : Type}
  : option scim_path -> pyval -> operation -> M St unit :=
  fun _ _ _ => raise (NotImplementedError None).

(** ** Python built-ins used by the two adapters *)

(** [[f(x) for x in l]]: left to right, stopping at the first exception. *)
Fixpoint map_result {A B} (f : A -> result B) (l : list A) : result (list B) :=
  match l with
  | [] => Ok []
  | x :: r =>
      try y <- f x in
      try ys <- map_result f r in
      Ok (y :: ys)
  end.

(** [list(x for x in l if p(x))] *)
Fixpoint filter_result {A} (p : A -> result bool) (l : list A) : result (list A) :=
  match l with
  | [] => Ok []
  | x :: r =>
      try b <- p x in
      try ys <- filter_result p r in
      Ok (if b then x :: ys else ys)
  end.

Definition is_int (x : json) : bool :=
  match x with JNum _ | JBool _ => true | _ => false end.

Definition int_value (x : json) : Z :=
  match x with
  | JNum n => n
  | JBool b => Z.b2z b
  | _ => 0%Z
  end.

(** [a < b] between two keys that are both str or both integers (a bool
    counts as 0 or 1). *)
Definition key_lt (a b : json) : bool :=
  match a, b with
  | JStr x, JStr y => String.ltb x y
  | _, _ => (int_value a <? int_value b)%Z
  end.

(** Stable insertion of a (key, item) pair that stood before all of [l]. *)
Fixpoint insert_by_key (x : json * json) (l : list (json * json))
  : list (json * json) :=
  match l with
  | [] => [x]
  | y :: r =>
      if key_lt (fst y) (fst x) then y :: insert_by_key x r else x :: y :: r
  end.

Definition sort_by_key (l : list (json * json)) : list (json * json) :=
  foldr insert_by_key [] l.

(** [sorted(l, key=key)]: the keys are computed first, then the items are
    sorted on them, stably, with [<] alone.  With fewer than two items nothing
    is compared.  With two or more, every key takes part in a comparison:
    [None] and dicts are ordered with nothing and a str is ordered with a str
    only, so keys that are not all str or all integers raise [TypeError].
    Keys that are themselves lists, which Python orders when their elements
    are ordered, are not modelled and count as unordered. *)
Definition py_sorted (key : json -> result json) (l : list json)
  : result (list json) :=
  try keys <- map_result key l in
  match l with
  | [] | [_] => Ok l
  | _ :: _ :: _ =>
      if forallb is_str keys || forallb is_int keys
      then Ok (map snd (sort_by_key (zip keys l)))
      else Raise TypeError
  end.

(** [x.strip()]: only a str has the method. *)
Definition py_strip (E : externals) (x : json) : result json :=
  match x with
  | JStr s => Ok (JStr (str_strip E s))
  | _ => Raise AttributeError
  end.

(** [int(x)] *)
Definition py_int (E : externals) (x : json) : result Z :=
  match x with
  | JNum n => Ok n
  | JBool b => Ok (Z.b2z b)
  | JStr s =>
      match int_of_str E s with
      | Some n => Ok n
      | None => Raise ValueError
      end
  | JNull | JList _ | JDict _ => Raise TypeError
  end.

(** ** SCIMUser *)

(** [self.obj] as its attributes by name, and the row last written by
    [self.obj.save()]. *)
Record user_state : Type := UserState {
  obj : gmap string json;
  saved : gmap string json
}.

Definition setattr (name : string) (v : json) : M user_state unit :=
  fun st => (Ok tt, UserState (<[name := v]> (obj st)) (saved st)).

Definition SCIMUser_ATTR_MAP : attr_map :=
  [ (("userName", None, None), "username");
    (("name", Some "familyName", None), "last_name");
    (("familyName", None, None), "last_name");
    (("name", Some "givenName", None), "first_name");
    (("givenName", None, None), "first_name");
    (("active", None, None), "is_active") ].

(** A key met by the loop of [handle_replace]: a resolved path when the dict
    was built by the normaliser or by the handler's own wrapping, a str when
    the dict is the request's value passed through. *)
Inductive dict_key : Type :=
| KeyStr (s : string)
| KeyPath (p : scim_path).

(** The key as a 3-tuple, when it is one: what [in ATTR_MAP] and
    [== ('emails', None, None)] can match. *)
Definition key_tuple (k : dict_key) : option attr_path :=
  match k with
  | KeyPath (AttrPath p) => Some p
  | _ => None
  end.

Definition is_dict_val (v : pyval) : bool :=
  match v with
  | VJson j => is_dict j
  | VPaths _ => true
  end.

(** [(value or {}).items()] for a value that is a dict. *)
Definition items (v : pyval) : list (dict_key * json) :=
  match v with
  | VJson (JDict d) => map (fun kv => (KeyStr (fst kv), snd kv)) d
  | VJson _ => []
  | VPaths d => map (fun kv => (KeyPath (fst kv), snd kv)) d
  end.

Definition invalid_email : exn := BadRequestError "Invalid email value" None.

Section SCIMUser.
Context (E : externals).

Definition validate_email (email : json) : result unit :=
  match EmailValidator E email with
  | None => Ok tt
  | Some ValidationError => Raise invalid_email
  | Some e => Raise e
  end.

Definition is_primary (e : json) : result bool :=
  try p <- py_get e "primary" in Ok (truthy p).

Definition not_primary (e : json) : result bool :=
  try p <- py_get e "primary" in Ok (negb (truthy p)).

Definition by_value (d : json) : result json := py_get d "value".

(** The list branch of [parse_emails], up to the choice of [email]. *)
Definition select_email (value : list json) : result json :=
  try primary <- filter_result is_primary value in
  try primary_emails <- py_sorted by_value primary in
  try secondary <- filter_result not_primary value in
  try secondary_emails <- py_sorted by_value secondary in
  let emails := primary_emails ++ secondary_emails in
  match emails with
  | e :: _ => py_get e "value"
  | [] => Raise invalid_email
  end.

Definition parse_emails (value : json) : M user_state unit :=
  if truthy value then
    do email <- lift
      match value with
      | JList l => select_email l
      | JDict d =>
          let v := dict_get d "value" in
          py_strip E (if truthy v then v else JStr EmptyString)
      | _ => Ok JNull
      end in
    do _ <- lift (validate_email email) in
    setattr "email" email
  else ret tt.

(** [self.obj.save()]: the row takes the attributes in memory when the call
    returns; when it raises, neither the row nor the attributes change. *)
Definition save : M user_state unit :=
  fun st =>
    match User_save E (obj st) with
    | None => (Ok tt, UserState (obj st) (obj st))
    | Some e => (Raise e, st)
    end.

Definition replace_not_implemented_msg : string :=
  "PATCH replace operation with value type of {type(value)} is not implemented".

(** The body of the loop of [handle_replace]. *)
Definition replace_item (kv : dict_key * json) : M user_state unit :=
  let (path, value) := kv in
  match key_tuple path with
  | Some p =>
      match attr_map_get SCIMUser_ATTR_MAP p with
      | Some field => setattr field value
      | None =>
          if decide (p = ("emails", None, None)) then parse_emails value
          else raise (NotImplementedError (Some "Not Implemented"))
      end
  | None => raise (NotImplementedError (Some "Not Implemented"))
  end.

Definition SCIMUser_handle_replace (path : option scim_path) (value : pyval)
    (operation : operation) : M user_state unit :=
  let value :=
    match path, value with
    | Some p, VJson (JStr s) => VPaths [(p, JStr s)]
    | _, _ => value
    end in
  if negb (is_dict_val value) then
    raise (NotImplementedError (Some replace_not_implemented_msg))
  else
    do _ <- for_each (items value) replace_item in
    save.

Definition SCIMUser : adapter user_state := {|
  ATTR_MAP := SCIMUser_ATTR_MAP;
  handle_add := SCIMMixin_handler;
  handle_remove := SCIMMixin_handler;
  handle_replace := SCIMUser_handle_replace
|}.

End SCIMUser.

(** ** SCIMGroup *)

(** [self.obj] as its attributes by name, the row last written by
    [self.obj.save()], the many-to-many relation [self.obj.user_set] as the
    set of the ids of the member users, and the ids of the rows of the user
    table that [get_user_model().objects] reads. *)
Record group_state : Type := GroupState {
  group_obj : gmap string json;
  group_saved : gmap string json;
  user_set : gset Z;
  users : gset Z
}.

Definition members_path : option scim_path := Some (AttrPath ("members", None, None)).

Definition name_path : option scim_path := Some (AttrPath ("name", None, None)).

(** [for x in v] on a value: a list yields its items, a str its characters, a
    dict its keys; nothing else is iterable. *)
Definition py_iter (v : json) : result (list json) :=
  match v with
  | JList l => Ok l
  | JStr s => Ok (map (fun c => JStr (String c EmptyString)) (list_ascii_of_string s))
  | JDict d => Ok (map (fun kv => JStr (fst kv)) d)
  | JNull | JBool _ | JNum _ => Raise TypeError
  end.

(** [value[0]] *)
Definition py_first (value : pyval) : result json :=
  match value with
  | VJson (JList (x :: _)) => Ok x
  | VJson (JList []) => Raise IndexError
  | VJson (JStr (String c _)) => Ok (JStr (String c EmptyString))
  | VJson (JStr EmptyString) => Raise IndexError
  | VJson (JDict _) => Raise KeyError
  | VJson (JNull | JBool _ | JNum _) => Raise TypeError
  | VPaths _ => Raise KeyError
  end.

(** [user_set.add(user)] and [user_set.remove(user)]: the relation holds a
    user at most once. *)
Definition user_set_add (u : Z) : M group_state unit :=
  fun st =>
    (Ok tt, GroupState (group_obj st) (group_saved st) ({[u]} ∪ user_set st) (users st)).

Definition user_set_remove (u : Z) : M group_state unit :=
  fun st =>
    (Ok tt, GroupState (group_obj st) (group_saved st) (user_set st ∖ {[u]}) (users st)).

(** [get_user_model().objects.filter(id__in=ids)]: the rows whose id is one
    of [ids]. *)
Definition filter_id_in (ids : list Z) : M group_state (gset Z) :=
  fun st => (Ok (filter (fun u => u ∈ ids) (users st)), st).

Section SCIMGroup.
Context (E : externals).

(** [members = value or []] followed by
    [[int(member.get('value')) for member in members]].  The keys of a
    dict built by the normaliser are tuples or path objects, which have no
    [get]. *)
Definition member_ids (value : pyval) : result (list Z) :=
  match value with
  | VJson j =>
      let members := if truthy j then j else JList [] in
      try members <- py_iter members in
      map_result (fun member => try v <- py_get member "value" in py_int E v)
                 members
  | VPaths [] => Ok []
  | VPaths (_ :: _) => Raise AttributeError
  end.

(** [self.obj.save()] on the group. *)
Definition group_save : M group_state unit :=
  fun st =>
    match Group_save E (group_obj st) with
    | None =>
        (Ok tt, GroupState (group_obj st) (group_obj st) (user_set st) (users st))
    | Some e => (Raise e, st)
    end.

Definition SCIMGroup_handle_add (path : option scim_path) (value : pyval)
    (operation : operation) : M group_state unit :=
  if decide (path = members_path) then
    do ids <- lift (member_ids value) in
    do users <- filter_id_in ids in
    if negb (length ids =? size users)%nat then
      raise (BadRequestError "Can not add a non-existent user to group" None)
    else
      for_each (elements users) user_set_add
  else raise (NotImplementedError None).

Definition SCIMGroup_handle_remove (path : option scim_path) (value : pyval)
    (operation : operation) : M group_state unit :=
  if decide (path = members_path) then
    do ids <- lift (member_ids value) in
    do users <- filter_id_in ids in
    if negb (length ids =? size users)%nat then
      raise (BadRequestError "Can not remove a non-existent user from group" None)
    else
      for_each (elements users) user_set_remove
  else raise (NotImplementedError None).

Definition SCIMGroup_handle_replace (path : option scim_path) (value : pyval)
    (operation : operation) : M group_state unit :=
  if decide (path = name_path) then
    do first <- lift (py_first value) in
    do name <- lift (py_get first "value") in
    do _ <- (fun st =>
               (Ok tt, GroupState (<["name" := name]> (group_obj st))
                                  (group_saved st) (user_set st) (users st))) in
    group_save
  else raise (NotImplementedError None).

(** [ATTR_MAP] is the empty one inherited from the mixin. *)
Definition SCIMGroup : adapter group_state := {|
  ATTR_MAP := [];
  handle_add := SCIMGroup_handle_add;
  handle_remove := SCIMGroup_handle_remove;
  handle_replace := SCIMGroup_handle_replace
|}.

End SCIMGroup.

(** ** Concrete environments for closed examples *)

(** A parser that knows a handful of simple paths and raises on the rest. *)
Definition demo_paths : list (string * attr_path) :=
  [ ("userName", ("userName", None, None));
    ("active", ("active", None, None));
    ("familyName", ("familyName", None, None));
    ("name.familyName", ("name", Some "familyName", None));
    ("emails", ("emails", None, None));
    ("members", ("members", None, None));
    ("displayName", ("displayName", None, None)) ].

Fixpoint demo_lookup (table : list (string * attr_path)) (filter_ : string)
  : result (list attr_path) :=
  match table with
  | [] => Raise (LibraryError "SCIMParserError")
  | (p, t) :: r =>
      if String.eqb (filter_of p) filter_ then Ok [t] else demo_lookup r filter_
  end.

Fixpoint has_at (s : string) : bool :=
  match s with
  | EmptyString => false
  | String c r => (nat_of_ascii c =? 64)%nat || has_at r
  end.

Definition demo_validator (email : json) : option exn :=
  match email with
  | JStr s => if has_at s then None else Some ValidationError
  | _ => if truthy email then Some TypeError else Some ValidationError
  end.

Fixpoint digits (s : string) (acc : Z) : option Z :=
  match s with
  | EmptyString => Some acc
  | String c r =>
      let n := nat_of_ascii c in
      if (48 <=? n)%nat && (n <=? 57)%nat
      then digits r (10 * acc + Z.of_nat (n - 48))%Z
      else None
  end.

Definition demo_int (s : string) : option Z :=
  match s with
  | EmptyString => None
  | _ => digits s 0%Z
  end.

(** A user table whose is_active column takes booleans only, and a group
    table whose name column refuses null. *)
Definition demo_user_save (o : gmap string json) : option exn :=
  match o !! "is_active" with
  | Some (JBool _) | None => None
  | Some _ => Some ValidationError
  end.

Definition demo_group_save (o : gmap string json) : option exn :=
  match o !! "name" with
  | Some JNull => Some (LibraryError "IntegrityError")
  | _ => None
  end.

Definition demo : externals := {|
  AttrPaths := fun filter_ _ => demo_lookup demo_paths filter_;
  EmailValidator := demo_validator;
  int_of_str := demo_int;
  str_strip := fun s => s;
  User_save := demo_user_save;
  Group_save := demo_group_save
|}.

(** The same environment with a parser that finds no fragment at all. *)
Definition demo_no_fragment : externals := {|
  AttrPaths := fun _ _ => Ok [];
  EmailValidator := demo_validator;
  int_of_str := demo_int;
  str_strip := fun s => s;
  User_save := demo_user_save;
  Group_save := demo_group_save
|}.

Definition empty_user : user_state := UserState ∅ ∅.

Definition group_of (members table : list Z) : group_state :=
  GroupState ∅ ∅ (list_to_set members) (list_to_set table).

(** ** Reading an email entry

    What the selection rule reads of an entry that is a dict whose value is a
    str, for stating what the rule computes. *)

Definition entry_value (e : json) : option string :=
  match e with
  | JDict d => match dict_get d "value" with JStr s => Some s | _ => None end
  | _ => None
  end.

Definition entry_primary (e : json) : bool :=
  match e with
  | JDict d => truthy (dict_get d "primary")
  | _ => false
  end.

Definition entry_secondary (e : json) : bool := negb (entry_primary e).

(** The sort key of such an entry. *)
Definition entry_key (e : json) : json :=
  match entry_value e with
  | Some s => JStr s
  | None => JNull
  end.

(** Ascending by value. *)
Definition value_le (a b : json) : Prop :=
  exists x y, entry_value a = Some x /\ entry_value b = Some y
              /\ String.leb x y = true.

(** The operations of the two ways of writing a replace of several
    attributes: one path-less operation carrying the mapping, or one operation
    per key. *)
Definition pathless_replace (d : list (string * json)) : operation :=
  Operation (JStr "replace") JNull (JDict d).

Definition per_key_replace (kv : string * json) : operation :=
  Operation (JStr "replace") (JStr (fst kv)) (snd kv).



Definition loop_items (its : list (scim_path * json)) : list (dict_key * json) :=
  map (fun kv => (KeyPath (fst kv), snd kv)) its.

(** The order the sort establishes between neighbours: the right one is not
    below the left one. *)
Definition key_ord (p q : json * json) : Prop := key_lt (fst q) (fst p) = false.

(** A step that reads and writes the attributes of [self.obj] only: its
    outcome and the attributes it leaves are determined by the attributes it
    starts from, and the saved row stays as it is. *)
Definition obj_only {A} (m : M user_state A) : Prop :=
  forall st st', obj st = obj st' ->
    fst (m st) = fst (m st')
    /\ obj (snd (m st)) = obj (snd (m st'))
    /\ saved (snd (m st)) = saved st.

(** The three entries of the spec's example of the selection rule. *)
Definition example_emails : list json :=
  [ JDict [("value", JStr "b@x.com"); ("primary", JBool false)];
    JDict [("value", JStr "a@x.com"); ("primary", JBool true)];
    JDict [("value", JStr "z@x.com"); ("primary", JBool true)] ].

(** ** Full-resource ingestion and the email getter *)

(** [d.get(k, default)]: the default stands for a missing key only; a key
    that is present with the value [None] reads as [None]. *)
Fixpoint dict_get_default (d : list (string * json)) (k : string) (default : json)
  : json :=
  match d with
  | [] => default
  | (k', v) :: r => if String.eqb k' k then v else dict_get_default r k default
  end.

(** [x or ''] *)
Definition or_empty (x : json) : json :=
  if truthy x then x else JStr EmptyString.

(** [getattr(self.obj, name)] on the User: an attribute that was never set
    raises. *)
Definition getattr (name : string) : M user_state json :=
  fun st =>
    match obj st !! name with
    | Some v => (Ok v, st)
    | None => (Raise AttributeError, st)
    end.

(** The property [SCIMUser.emails]. *)
Definition SCIMUser_emails : M user_state json :=
  do email <- getattr "email" in
  ret (JList [JDict [("value", email); ("primary", JBool true)]]).

(** [SCIMMixin.from_dict], on the attributes of the User. *)
Definition SCIMMixin_from_dict (d : list (string * json)) : M user_state unit :=
  let scim_external_id := dict_get d "externalId" in
  setattr "scim_external_id" (or_empty scim_external_id).

Section SCIMUserFromDict.
Context (E : externals).

(** [self.obj.set_password(text)] belongs to the user model of the
    application: a change of the attributes of the object. *)
Context (set_password : json -> gmap string json -> gmap string json).

Definition call_set_password (text : json) : M user_state unit :=
  fun st => (Ok tt, UserState (set_password text (obj st)) (saved st)).

Definition SCIMUser_from_dict (d : list (string * json)) : M user_state unit :=
  do _ <- SCIMMixin_from_dict d in
  let username := dict_get d "userName" in
  do _ <- setattr "username" (or_empty username) in
  do u <- getattr "username" in
  do _ <- setattr "scim_username" u in
  do first_name <- lift (py_get (dict_get_default d "name" (JDict [])) "givenName") in
  do _ <- setattr "first_name" (or_empty first_name) in
  do last_name <- lift (py_get (dict_get_default d "name" (JDict [])) "familyName") in
  do _ <- setattr "last_name" (or_empty last_name) in
  let emails := dict_get_default d "emails" (JList []) in
  do _ <- parse_emails E emails in
  let cleartext_password := dict_get d "password" in
  do _ <- (if truthy cleartext_password
           then call_set_password cleartext_password else ret tt) in
  let active := dict_get d "active" in
  match active with
  | JNull => ret tt
  | _ => setattr "is_active" active
  end.

End SCIMUserFromDict.

(** [SCIMGroup.from_dict]: the mixin's part, then the name. *)
Definition SCIMGroup_from_dict (d : list (string * json)) : M group_state unit :=
  fun st =>
    let scim_external_id := dict_get d "externalId" in
    let o := <["scim_external_id" := or_empty scim_external_id]> (group_obj st) in
    let name := dict_get d "displayName" in
    let o := <["name" := or_empty name]> o in
    (Ok tt, GroupState o (group_saved st) (user_set st) (users st)).

(** ** Reading what the normaliser and the dispatcher are given *)

(** [dict[k]] for a dict keyed by paths: the value of the first entry with
    that key. *)
Fixpoint paths_lookup (d : list (scim_path * json)) (k : scim_path) : option json :=
  match d with
  | [] => None
  | (k', v) :: r => if decide (k' = k) then Some v else paths_lookup r k
  end.

(** The operation with its op code replaced. *)
Definition with_op (o : operation) (c : json) : operation :=
  Operation c (get_path o) (get_value o).

(** An environment whose parser finds two fragments in every path. *)
Definition demo_two_fragments : externals := {|
  AttrPaths := fun _ _ => Ok [("members", None, None); ("value", None, None)];
  EmailValidator := demo_validator;
  int_of_str := demo_int;
  str_strip := fun s => s;
  User_save := demo_user_save;
  Group_save := demo_group_save
|}.

(** What the loop of the User replace does to the attributes for an item
    whose path is in the attribute map, and for a list of such items. *)
Definition assign (o : gmap string json) (kv : attr_path * json)
  : gmap string json :=
  match attr_map_get SCIMUser_ATTR_MAP (fst kv) with
  | Some field => <[field := snd kv]> o
  | None => o
  end.

Definition assign_all (o : gmap string json) (kvs : list (attr_path * json))
  : gmap string json :=
  foldl assign o kvs.

Definition tuple_items (kvs : list (attr_path * json)) : list (scim_path * json) :=
  map (fun kv => (AttrPath (fst kv), snd kv)) kvs.

(** The attributes after [from_dict] has taken the external id and the
    names from [d], [name] being the mapping under its name key. *)
Definition names_ingested (d name : list (string * json)) (o : gmap string json)
  : gmap string json :=
  <["last_name" := or_empty (dict_get name "familyName")]>
    (<["first_name" := or_empty (dict_get name "givenName")]>
       (<["scim_username" := or_empty (dict_get d "userName")]>
          (<["username" := or_empty (dict_get d "userName")]>
             (<["scim_external_id" := or_empty (dict_get d "externalId")]> o)))).


(** * Properties *)

(** ** The monad *)

Lemma bind_lift_ok {St A B} (r : result A) (a : A) (k : A -> M St B) st :
  r = Ok a -> bind (lift r) k st = k a st.
Proof. intros ->. reflexivity. Qed.

Lemma bind_lift_raise {St A B} (r : result A) e (k : A -> M St B) st :
  r = Raise e -> bind (lift r) k st = (Raise e, st).
Proof. intros ->. reflexivity. Qed.

Lemma bind_ok {St A B} (m : M St A) (k : A -> M St B) a st st' :
  m st = (Ok a, st') -> bind m k st = k a st'.
Proof. unfold bind. intros ->. reflexivity. Qed.

Lemma bind_raise {St A B} (m : M St A) (k : A -> M St B) e st st' :
  m st = (Raise e, st') -> bind m k st = (Raise e, st').
Proof. unfold bind. intros ->. reflexivity. Qed.

Lemma bind_assoc {St A B C} (m : M St A) (k : A -> M St B) (h : B -> M St C) st :
  bind (bind m k) h st = bind m (fun a => bind (k a) h) st.
Proof. unfold bind. destruct (m st) as [[a|e] s]; reflexivity. Qed.

(** ** The resolver *)

Section Resolver.
Context (E : externals) {St : Type} (self : adapter St).

Lemma split_path_not_str (path : json) :
  is_str path = false -> split_path E self path = Raise TypeError.
Proof. destruct path; simpl; intros H; try reflexivity; discriminate. Qed.

Lemma split_path_single (path : string) (p : attr_path) :
  AttrPaths E (filter_of path) (ATTR_MAP self) = Ok [p] ->
  split_path E self (JStr path) = Ok (AttrPath p).
Proof. unfold split_path, filter_of. intros ->. reflexivity. Qed.

Lemma parse_path_and_value_not_dict (path value : json) :
  is_dict value = false ->
  parse_path_and_value E self path value =
    try new_path <- split_path E self path in Ok (Some new_path, VJson value).
Proof. destruct value; simpl; intros H; try reflexivity; discriminate. Qed.


(** The normaliser hands back no path exactly for a falsy path with a
    mapping value. *)
Lemma parse_path_and_value_none (path value : json) v :
  parse_path_and_value E self path value = Ok (None, v) ->
  truthy path = false /\ is_dict value = true.
Proof.
  unfold parse_path_and_value.
  destruct value; simpl;
    try (destruct (split_path E self path); simpl; discriminate).
  destruct (truthy path); simpl.
  - destruct (split_path E self path); simpl; discriminate.
  - auto.
Qed.

End Resolver.

(** C3. A path whose parse yields no fragment makes [split_path] stop with
    [NameError] on the unbound name [scim_exceptions]: the [BadRequestError]
    that the branch means to raise, with the message it has prepared, is never
    built, and no SCIM exception of any kind comes out. *)
Theorem split_path_no_fragment_NameError
    (E : externals) {St : Type} (self : adapter St) (path : string) :
  AttrPaths E (filter_of path) (ATTR_MAP self) = Ok [] ->
  split_path E self (JStr path) = Raise (NameError "scim_exceptions")
  /\ forall detail scim_type,
       split_path E self (JStr path) <> Raise (BadRequestError detail scim_type).
Proof.
  intros H.
  assert (Hs : split_path E self (JStr path) = Raise (NameError "scim_exceptions")).
  { unfold split_path, filter_of in *. rewrite H. reflexivity. }
  split; [exact Hs|].
  intros detail scim_type. rewrite Hs. discriminate.
Qed.

Lemma split_path_no_fragment_NameError_witness :
  AttrPaths demo_no_fragment (filter_of "userName")
            (ATTR_MAP (SCIMUser demo_no_fragment)) = Ok []
  /\ split_path demo_no_fragment (SCIMUser demo_no_fragment) (JStr "userName")
     = Raise (NameError "scim_exceptions").
Proof.
  split; [reflexivity|].
  apply (split_path_no_fragment_NameError demo_no_fragment
           (SCIMUser demo_no_fragment) "userName").
  reflexivity.
Defined.

(** ** The dispatcher *)

Section Dispatcher.
Context (E : externals) {St : Type} (self : adapter St).

Lemma handle_operation_normalise_raise (o : operation) e st :
  parse_path_and_value E self (get_path o) (get_value o) = Raise e ->
  handle_operation E self o st = (Raise e, st).
Proof. intros H. unfold handle_operation. apply bind_lift_raise, H. Qed.

Lemma handle_operation_normalised (o : operation) path value c st :
  parse_path_and_value E self (get_path o) (get_value o) = Ok (path, value) ->
  get_op o = JStr c ->
  handle_operation E self o st =
    if negb (bool_decide (lower c ∈ VALID_PATCH_OPS)) then
      (Raise (BadRequestError (unknown_op_msg (lower c)) None), st)
    else if String.eqb (lower c) "remove" && negb (path_truthy path) then
      (Raise (BadRequestError remove_needs_path_msg (Some "noTarget")), st)
    else
      bind (lift (getattr_handler self ("handle_" +:+ lower c)))
           (fun handler => handler path value o) st.
Proof.
  intros Hn Hc. unfold handle_operation.
  rewrite (bind_lift_ok _ _ _ _ Hn). rewrite Hc. simpl py_lower.
  rewrite (bind_lift_ok _ (lower c)) by reflexivity.
  destruct (negb (bool_decide (lower c ∈ VALID_PATCH_OPS))); [reflexivity|].
  destruct (String.eqb (lower c) "remove" && negb (path_truthy path));
    reflexivity.
Qed.

Lemma handle_operations_first_raises (o : operation) rest e st st' :
  handle_operation E self o st = (Raise e, st') ->
  handle_operations E self (o :: rest) st = (Raise e, st').
Proof.
  intros H. unfold handle_operations. simpl. unfold bind. rewrite H.
  reflexivity.
Qed.

End Dispatcher.

Lemma valid_op_cases (c : string) :
  c ∈ VALID_PATCH_OPS -> c = "add" \/ c = "remove" \/ c = "replace".
Proof.
  unfold VALID_PATCH_OPS. rewrite !elem_of_cons, elem_of_nil. tauto.
Qed.

(** C8, amended.  For every PATCH operation with a str op code whose path and
    value normalise without an exception: the op code is lower-cased; when
    the result is not one of add, remove, replace the dispatcher raises
    BadRequest (Unknown PATCH op, quoting the lower-cased code) with the
    state untouched, whatever the handlers of the adapter are; a code that
    lower-cases to add or replace, in any casing, is routed to
    [handle_add] or [handle_replace] with the normalised path and value, and
    one that lower-cases to remove is routed to [handle_remove] when the
    normalised path is present. *)
Theorem handle_operation_op_code
    (E : externals) {St : Type} (self : adapter St)
    (o : operation) (c : string) path value st :
  get_op o = JStr c ->
  parse_path_and_value E self (get_path o) (get_value o) = Ok (path, value) ->
  (lower c ∉ VALID_PATCH_OPS ->
     handle_operation E self o st
     = (Raise (BadRequestError (unknown_op_msg (lower c)) None), st))
  /\ (lower c = "add" ->
        handle_operation E self o st = handle_add self path value o st)
  /\ (lower c = "replace" ->
        handle_operation E self o st = handle_replace self path value o st)
  /\ (lower c = "remove" -> path <> None ->
        handle_operation E self o st = handle_remove self path value o st).
Proof.
  intros Hc Hn.
  rewrite (handle_operation_normalised E self o path value c st Hn Hc).
  repeat split.
  - intros Hv. rewrite bool_decide_eq_false_2 by exact Hv. reflexivity.
  - intros ->. reflexivity.
  - intros ->. reflexivity.
  - intros -> Hp. destruct path; [reflexivity|congruence].
Qed.

Lemma handle_operation_op_code_witness :
  handle_operation demo (SCIMUser demo)
    (Operation (JStr "Replace") (JStr "userName") (JStr "bob")) empty_user
  = SCIMUser_handle_replace demo (Some (AttrPath ("userName", None, None)))
      (VJson (JStr "bob"))
      (Operation (JStr "Replace") (JStr "userName") (JStr "bob")) empty_user.
Proof.
  apply (handle_operation_op_code demo (SCIMUser demo)
           (Operation (JStr "Replace") (JStr "userName") (JStr "bob")) "Replace"
           (Some (AttrPath ("userName", None, None))) (VJson (JStr "bob"))
           empty_user); reflexivity.
Defined.

(** C8 as stated fails: the operation that carries nothing but the op code
    frobnicate does not end in BadRequest.  Its absent path is normalised
    first, and that raises [TypeError].  In the same way, with a path that
    the parser refuses, the parser's exception comes out and the op code is
    never looked at. *)
Lemma unknown_op_without_path_TypeError :
  (lower "frobnicate" ∉ VALID_PATCH_OPS)
  /\ handle_operations demo (SCIMUser demo)
       [Operation (JStr "frobnicate") JNull JNull] empty_user
     = (Raise TypeError, empty_user)
  /\ fst (handle_operations demo (SCIMUser demo)
            [Operation (JStr "frobnicate") JNull JNull] empty_user)
     <> Raise (BadRequestError (unknown_op_msg "frobnicate") None)
  /\ handle_operations demo (SCIMUser demo)
       [Operation (JStr "frobnicate") (JStr "[") JNull] empty_user
     = (Raise (LibraryError "SCIMParserError"), empty_user).
Proof.
  split; [|split; [|split]].
  - intros H. apply valid_op_cases in H. simpl in H.
    destruct H as [H|[H|H]]; discriminate.
  - reflexivity.
  - simpl. discriminate.
  - reflexivity.
Qed.

(** C9.  An operation whose op code lower-cases to remove and whose
    normalised path is absent makes the dispatcher raise BadRequest with
    scim_type noTarget; no handler runs and the state is the one before,
    whatever the handlers of the adapter are, and the operations after it are
    not reached.  A path-less operation with a mapping value whose keys all
    resolve is such an operation. *)
Theorem handle_operation_remove_without_path
    (E : externals) {St : Type} (self : adapter St)
    (o : operation) (c : string) value rest st :
  get_op o = JStr c ->
  lower c = "remove" ->
  parse_path_and_value E self (get_path o) (get_value o) = Ok (None, value) ->
  handle_operation E self o st
  = (Raise (BadRequestError remove_needs_path_msg (Some "noTarget")), st)
  /\ handle_operations E self (o :: rest) st
     = (Raise (BadRequestError remove_needs_path_msg (Some "noTarget")), st).
Proof.
  intros Hc Hl Hn.
  assert (H : handle_operation E self o st
     = (Raise (BadRequestError remove_needs_path_msg (Some "noTarget")), st)).
  { rewrite (handle_operation_normalised E self o None value c st Hn Hc).
    rewrite Hl. reflexivity. }
  split; [exact H|].
  apply handle_operations_first_raises, H.
Qed.

Lemma handle_operation_remove_without_path_witness :
  handle_operations demo (SCIMGroup demo)
    [Operation (JStr "Remove") JNull
       (JDict [("members", JList [JDict [("value", JStr "1")]])])]
    (group_of [1%Z] [1%Z])
  = (Raise (BadRequestError remove_needs_path_msg (Some "noTarget")),
     group_of [1%Z] [1%Z]).
Proof.
  apply (handle_operation_remove_without_path demo (SCIMGroup demo)
           (Operation (JStr "Remove") JNull
              (JDict [("members", JList [JDict [("value", JStr "1")]])]))
           "Remove"
           (VPaths [(AttrPath ("members", None, None),
                     JList [JDict [("value", JStr "1")]])])
           [] (group_of [1%Z] [1%Z])); reflexivity.
Defined.

(** C10.  For an operation whose path is absent: when the value is not a
    mapping, normalisation raises [TypeError] (the absent path is
    concatenated with a str) before the op code is looked at, whatever the op
    code is, and the state is untouched; so a BadRequest of any kind, the
    unknown-op one and the noTarget one included, can only come out when the
    value is a mapping; and the noTarget one does come out for a remove whose
    value is the empty mapping. *)
Theorem handle_operation_absent_path
    (E : externals) {St : Type} (self : adapter St) (o : operation) st :
  get_path o = JNull ->
  (is_dict (get_value o) = false ->
     handle_operation E self o st = (Raise TypeError, st))
  /\ (forall detail scim_type,
        fst (handle_operation E self o st)
        = Raise (BadRequestError detail scim_type) ->
        is_dict (get_value o) = true)
  /\ handle_operation E self (Operation (JStr "remove") JNull (JDict [])) st
     = (Raise (BadRequestError remove_needs_path_msg (Some "noTarget")), st).
Proof.
  intros Hp.
  assert (H : is_dict (get_value o) = false ->
     handle_operation E self o st = (Raise TypeError, st)).
  { intros Hd. apply handle_operation_normalise_raise.
    rewrite parse_path_and_value_not_dict by exact Hd.
    rewrite Hp. reflexivity. }
  split; [exact H|]. split.
  - intros detail scim_type Hr.
    destruct (is_dict (get_value o)) eqn:Hd; [reflexivity|].
    rewrite (H eq_refl) in Hr. discriminate.
  - reflexivity.
Qed.

Lemma handle_operation_absent_path_witness :
  handle_operation demo (SCIMGroup demo)
    (Operation (JStr "remove") JNull (JList [JDict [("value", JStr "1")]]))
    (group_of [1%Z] [1%Z])
  = (Raise TypeError, group_of [1%Z] [1%Z]).
Proof.
  apply (handle_operation_absent_path demo (SCIMGroup demo)
           (Operation (JStr "remove") JNull (JList [JDict [("value", JStr "1")]]))
           (group_of [1%Z] [1%Z])); reflexivity.
Defined.

(** ** Group membership *)

Lemma size_list_to_set_le (l : list Z) :
  size (list_to_set l : gset Z) <= length l.
Proof.
  induction l as [|x l IH].
  - rewrite list_to_set_nil, size_empty. simpl. lia.
  - rewrite list_to_set_cons, size_union_alt, size_singleton. cbn [length].
    assert (size (list_to_set l ∖ {[x]} : gset Z) <= size (list_to_set l : gset Z)).
    { apply subseteq_size. set_solver. }
    lia.
Qed.

Lemma size_list_to_set_dup (l : list Z) :
  ¬ NoDup l -> size (list_to_set l : gset Z) < length l.
Proof.
  induction l as [|x l IH]; intros Hd.
  - destruct Hd. constructor.
  - rewrite list_to_set_cons, size_union_alt, size_singleton. cbn [length].
    destruct (decide (x ∈ l)) as [Hx|Hx].
    + assert (size (list_to_set l ∖ {[x]} : gset Z) < size (list_to_set l : gset Z)).
      { apply subset_size. set_solver. }
      pose proof (size_list_to_set_le l). lia.
    + assert (size (list_to_set l ∖ {[x]} : gset Z) <= size (list_to_set l : gset Z)).
      { apply subseteq_size. set_solver. }
      assert (¬ NoDup l) by (intros Hn; apply Hd; constructor; assumption).
      specialize (IH H0). lia.
Qed.

Lemma filter_id_in_subseteq (ids : list Z) (table : gset Z) :
  filter (fun u => u ∈ ids) table ⊆ list_to_set ids.
Proof. set_solver. Qed.

Lemma filter_id_in_all (ids : list Z) (table : gset Z) :
  Forall (fun i => i ∈ table) ids ->
  filter (fun u => u ∈ ids) table = list_to_set ids.
Proof.
  intros H. apply set_eq. intros u.
  rewrite elem_of_filter, elem_of_list_to_set.
  rewrite Forall_forall in H. split; [tauto|]. intros Hu. split; [exact Hu|].
  apply H, Hu.
Qed.

Lemma for_each_user_set_add (l : list Z) st :
  for_each l user_set_add st
  = (Ok tt, GroupState (group_obj st) (group_saved st)
                       (list_to_set l ∪ user_set st) (users st)).
Proof.
  revert st. induction l as [|u l IH]; intros st.
  - rewrite list_to_set_nil. cbn [for_each]. unfold ret.
    destruct st; cbn. f_equal. f_equal. set_solver.
  - rewrite list_to_set_cons. cbn [for_each]. unfold bind, user_set_add at 1.
    rewrite IH. cbn. f_equal. f_equal. set_solver.
Qed.

Section GroupAdd.
Context (E : externals).

Lemma handle_add_members value op ids st :
  member_ids E value = Ok ids ->
  SCIMGroup_handle_add E members_path value op st =
    let found := filter (fun u => u ∈ ids) (users st) in
    if negb (length ids =? size found)%nat then
      (Raise (BadRequestError "Can not add a non-existent user to group" None), st)
    else
      (Ok tt, GroupState (group_obj st) (group_saved st)
                         (found ∪ user_set st) (users st)).
Proof.
  intros Hm. unfold SCIMGroup_handle_add.
  rewrite decide_True by reflexivity.
  rewrite (bind_lift_ok _ _ _ _ Hm). unfold bind, filter_id_in. simpl.
  destruct (negb (length ids =? size (filter (fun u => u ∈ ids) (users st)))%nat);
    [reflexivity|].
  rewrite for_each_user_set_add. rewrite list_to_set_elements_L.
  reflexivity.
Qed.

Lemma handle_add_all_known value op ids st :
  member_ids E value = Ok ids ->
  NoDup ids ->
  Forall (fun i => i ∈ users st) ids ->
  SCIMGroup_handle_add E members_path value op st
  = (Ok tt, GroupState (group_obj st) (group_saved st)
                       (list_to_set ids ∪ user_set st) (users st)).
Proof.
  intros Hm Hn Ha. rewrite (handle_add_members value op ids st Hm). cbv zeta.
  rewrite (filter_id_in_all ids (users st) Ha).
  rewrite size_list_to_set by exact Hn.
  rewrite Nat.eqb_refl. reflexivity.
Qed.

End GroupAdd.

(** C4.  A Group add on the members path whose member list names at least
    one id that is no row of the user table raises BadRequest (Can not add a
    non-existent user to group) and leaves the state, the membership
    included, exactly as it was: the count is checked before the first
    [user_set.add]. *)
Theorem handle_add_unknown_user
    (E : externals) value op ids (i : Z) st :
  member_ids E value = Ok ids ->
  i ∈ ids ->
  i ∉ users st ->
  SCIMGroup_handle_add E members_path value op st
  = (Raise (BadRequestError "Can not add a non-existent user to group" None), st).
Proof.
  intros Hm Hi Hu. rewrite (handle_add_members E value op ids st Hm). cbv zeta.
  set (found := filter (fun u => u ∈ ids) (users st)).
  assert (Hlt : size found < length ids).
  { assert (H1 : size found < size (list_to_set ids : gset Z)).
    { apply subset_size. split.
      - apply filter_id_in_subseteq.
      - intros Hsub. apply Hu.
        assert (Hin : i ∈ found) by (apply Hsub, elem_of_list_to_set, Hi).
        apply elem_of_filter in Hin. tauto. }
    pose proof (size_list_to_set_le ids). lia. }
  destruct (Nat.eqb_spec (length ids) (size found)) as [Heq|Hne]; [lia|].
  reflexivity.
Qed.

Lemma handle_add_unknown_user_witness :
  SCIMGroup_handle_add demo members_path
    (VJson (JList [JDict [("value", JStr "999")]]))
    (Operation (JStr "add") (JStr "members") (JList [JDict [("value", JStr "999")]]))
    (group_of [1%Z] [1%Z; 2%Z])
  = (Raise (BadRequestError "Can not add a non-existent user to group" None),
     group_of [1%Z] [1%Z; 2%Z]).
Proof.
  apply (handle_add_unknown_user demo _ _ [999%Z] 999%Z).
  - reflexivity.
  - set_solver.
  - cbn. set_solver.
Defined.

(** C7.  A Group add on the members path whose ids are pairwise distinct and
    all rows of the user table succeeds, makes the membership the union of
    the old membership and those ids, and applied a second time succeeds
    again and changes nothing. *)
Theorem handle_add_idempotent
    (E : externals) value op ids st :
  member_ids E value = Ok ids ->
  NoDup ids ->
  Forall (fun i => i ∈ users st) ids ->
  let st1 := GroupState (group_obj st) (group_saved st)
                        (list_to_set ids ∪ user_set st) (users st) in
  SCIMGroup_handle_add E members_path value op st = (Ok tt, st1)
  /\ SCIMGroup_handle_add E members_path value op st1 = (Ok tt, st1).
Proof.
  intros Hm Hn Ha st1. split.
  - apply handle_add_all_known; assumption.
  - rewrite (handle_add_all_known E value op ids st1 Hm Hn Ha).
    unfold st1. cbn. f_equal. f_equal. set_solver.
Qed.

Lemma handle_add_idempotent_witness :
  SCIMGroup_handle_add demo members_path
    (VJson (JList [JDict [("value", JStr "1")]; JDict [("value", JStr "2")]]))
    (Operation (JStr "add") (JStr "members") JNull)
    (group_of [1%Z] [1%Z; 2%Z])
  = (Ok tt, GroupState ∅ ∅ (list_to_set [1%Z; 2%Z] ∪ list_to_set [1%Z])
                       (list_to_set [1%Z; 2%Z])).
Proof.
  apply (handle_add_idempotent demo _ _ [1%Z; 2%Z] (group_of [1%Z] [1%Z; 2%Z])).
  - reflexivity.
  - repeat constructor; set_solver.
  - cbn. repeat constructor; set_solver.
Defined.

(** C2, what the code does.  A Group add on the members path whose id list
    has a repeated id raises BadRequest (Can not add a non-existent user to
    group) and adds nobody, also when every id is a row of the user table:
    the length of the id list, repeats counted, is compared with the number
    of rows found. *)
Theorem handle_add_repeated_id_rejected
    (E : externals) value op ids st :
  member_ids E value = Ok ids ->
  ¬ NoDup ids ->
  SCIMGroup_handle_add E members_path value op st
  = (Raise (BadRequestError "Can not add a non-existent user to group" None), st).
Proof.
  intros Hm Hd. rewrite (handle_add_members E value op ids st Hm). cbv zeta.
  set (found := filter (fun u => u ∈ ids) (users st)).
  assert (Hlt : size found < length ids).
  { assert (H1 : size found <= size (list_to_set ids : gset Z))
      by apply subseteq_size, filter_id_in_subseteq.
    pose proof (size_list_to_set_dup ids Hd). lia. }
  destruct (Nat.eqb_spec (length ids) (size found)) as [Heq|Hne]; [lia|].
  reflexivity.
Qed.

Lemma handle_add_repeated_id_rejected_witness :
  (Forall (fun i => i ∈ users (group_of [] [1%Z])) [1%Z; 1%Z])
  /\ SCIMGroup_handle_add demo members_path
       (VJson (JList [JDict [("value", JStr "1")]; JDict [("value", JStr "1")]]))
       (Operation (JStr "add") (JStr "members") JNull)
       (group_of [] [1%Z])
     = (Raise (BadRequestError "Can not add a non-existent user to group" None),
        group_of [] [1%Z])
  /\ SCIMGroup_handle_add demo members_path
       (VJson (JList [JDict [("value", JStr "1")]]))
       (Operation (JStr "add") (JStr "members") JNull)
       (group_of [] [1%Z])
     = (Ok tt, GroupState ∅ ∅ (list_to_set [1%Z] ∪ list_to_set [])
                          (list_to_set [1%Z])).
Proof.
  split; [|split].
  - cbn. repeat constructor; set_solver.
  - apply (handle_add_repeated_id_rejected demo _ _ [1%Z; 1%Z]).
    + reflexivity.
    + intros Hn. inversion Hn as [|x l Hx Hl]; subst. apply Hx. set_solver.
  - apply (handle_add_all_known demo _ _ [1%Z]).
    + reflexivity.
    + repeat constructor; set_solver.
    + cbn. repeat constructor; set_solver.
Defined.

(** ** Sorting on a key *)

Lemma string_ltb_asym (x y : string) :
  String.ltb x y = true -> String.ltb y x = false.
Proof.
  unfold String.ltb. rewrite (String.compare_antisym x y).
  destruct (String.compare y x); simpl; intros H;
    first [reflexivity | discriminate H].
Qed.

Lemma string_ltb_false_leb (x y : string) :
  String.ltb y x = false -> String.leb x y = true.
Proof.
  unfold String.ltb, String.leb. rewrite (String.compare_antisym x y).
  destruct (String.compare y x); simpl; intros H;
    first [reflexivity | discriminate H].
Qed.

Lemma key_lt_asym (a b : json) : key_lt a b = true -> key_lt b a = false.
Proof.
  destruct a, b; simpl; try (intros H; apply Z.ltb_lt in H; apply Z.ltb_ge; lia).
  apply string_ltb_asym.
Qed.

Lemma insert_by_key_perm x l : insert_by_key x l ≡ₚ x :: l.
Proof.
  induction l as [|y r IH]; simpl; [reflexivity|].
  destruct (key_lt (fst y) (fst x)); [|reflexivity].
  rewrite IH. apply perm_swap.
Qed.

Lemma sort_by_key_perm l : sort_by_key l ≡ₚ l.
Proof.
  induction l as [|x l IH]; simpl; [reflexivity|].
  rewrite insert_by_key_perm. constructor. exact IH.
Qed.

Lemma insert_by_key_hd x y l :
  key_ord y x -> HdRel key_ord y l -> HdRel key_ord y (insert_by_key x l).
Proof.
  intros Hyx Hl. destruct l as [|z r]; simpl.
  - constructor. exact Hyx.
  - destruct (key_lt (fst z) (fst x)); constructor.
    + inversion Hl; assumption.
    + exact Hyx.
Qed.

Lemma insert_by_key_sorted x l :
  Sorted key_ord l -> Sorted key_ord (insert_by_key x l).
Proof.
  induction 1 as [|y r Hr IH Hhd]; simpl.
  - repeat constructor.
  - destruct (key_lt (fst y) (fst x)) eqn:Hlt.
    + constructor; [exact IH|].
      apply insert_by_key_hd; [|exact Hhd].
      unfold key_ord. apply key_lt_asym, Hlt.
    + constructor; [constructor; assumption|].
      constructor. exact Hlt.
Qed.

Lemma sort_by_key_sorted l : Sorted key_ord (sort_by_key l).
Proof.
  induction l as [|x l IH]; simpl; [constructor|].
  apply insert_by_key_sorted, IH.
Qed.

(** ** The email selection rule *)

Lemma entry_value_get e s :
  entry_value e = Some s ->
  py_get e "value" = Ok (JStr s)
  /\ is_primary e = Ok (entry_primary e)
  /\ not_primary e = Ok (entry_secondary e).
Proof.
  destruct e as [| | | |?|d]; simpl; try discriminate.
  unfold is_primary, not_primary, entry_secondary. simpl.
  destruct (dict_get d "value"); try discriminate.
  intros [= ->]. auto.
Qed.

Lemma filter_result_primary l :
  Forall (fun e => is_Some (entry_value e)) l ->
  filter_result is_primary l = Ok (List.filter entry_primary l).
Proof.
  induction 1 as [|e l [s Hs] _ IH]; simpl; [reflexivity|].
  destruct (entry_value_get e s Hs) as (_ & -> & _). simpl.
  rewrite IH. simpl. destruct (entry_primary e); reflexivity.
Qed.

Lemma filter_result_secondary l :
  Forall (fun e => is_Some (entry_value e)) l ->
  filter_result not_primary l = Ok (List.filter entry_secondary l).
Proof.
  induction 1 as [|e l [s Hs] _ IH]; simpl; [reflexivity|].
  destruct (entry_value_get e s Hs) as (_ & _ & ->). simpl.
  rewrite IH. simpl. destruct (entry_secondary e); reflexivity.
Qed.

Lemma map_result_by_value l :
  Forall (fun e => is_Some (entry_value e)) l ->
  map_result by_value l = Ok (map entry_key l)
  /\ forallb is_str (map entry_key l) = true.
Proof.
  induction 1 as [|e l [s Hs] _ [IH1 IH2]]; [auto|].
  cbn [map_result map forallb]. unfold by_value at 1.
  destruct (entry_value_get e s Hs) as (-> & _).
  rewrite IH1, IH2. unfold entry_key. rewrite Hs. auto.
Qed.

Lemma sorted_pairs_by_value (L : list (json * json)) :
  Sorted key_ord L ->
  Forall (fun p => fst p = entry_key (snd p) /\ is_Some (entry_value (snd p))) L ->
  Sorted value_le (map snd L).
Proof.
  induction 1 as [|p L HL IH Hhd]; intros Hinv; simpl; [constructor|].
  inversion Hinv as [|? ? [Hp [x Hx]] HinvL]; subst.
  constructor; [apply IH, HinvL|].
  destruct Hhd as [|q L' Hpq]; simpl; constructor.
  inversion HinvL as [|? ? [Hq [y Hy]] _]; subst.
  exists x, y. split; [exact Hx|]. split; [exact Hy|].
  unfold key_ord in Hpq. rewrite Hp, Hq in Hpq. unfold entry_key in Hpq.
  rewrite Hx, Hy in Hpq. simpl in Hpq. apply string_ltb_false_leb, Hpq.
Qed.

Lemma zip_entry_keys l :
  Forall (fun e => is_Some (entry_value e)) l ->
  Forall (fun p => fst p = entry_key (snd p) /\ is_Some (entry_value (snd p)))
         (zip (map entry_key l) l)
  /\ map snd (zip (map entry_key l) l) = l.
Proof.
  induction 1 as [|e l He _ [IH1 IH2]]; simpl; [split; constructor|].
  split; [constructor; auto|]. f_equal. exact IH2.
Qed.

(** On entries that are dicts with a str value, [sorted(..., key=value)]
    returns, and what it returns is a rearrangement of its input that
    ascends by value. *)
Lemma py_sorted_by_value l :
  Forall (fun e => is_Some (entry_value e)) l ->
  exists l', py_sorted by_value l = Ok l' /\ l' ≡ₚ l /\ Sorted value_le l'.
Proof.
  intros Hwf. unfold py_sorted.
  destruct (map_result_by_value l Hwf) as [-> Hstr]. simpl.
  destruct l as [|a [|b r]].
  - exists []. repeat split; constructor.
  - exists [a]. repeat split; repeat constructor.
  - rewrite Hstr. simpl orb. cbv iota.
    destruct (zip_entry_keys _ Hwf) as [Hinv Hsnd].
    eexists. split; [reflexivity|]. split.
    + rewrite sort_by_key_perm. rewrite Hsnd. reflexivity.
    + apply sorted_pairs_by_value; [apply sort_by_key_sorted|].
      rewrite sort_by_key_perm. exact Hinv.
Qed.

Lemma Forall_list_filter {A} (P : A -> Prop) (f : A -> bool) l :
  Forall P l -> Forall P (List.filter f l).
Proof.
  induction 1 as [|x l Hx _ IH]; simpl; [constructor|].
  destruct (f x); [constructor|]; assumption.
Qed.

Lemma partition_length l :
  length (List.filter entry_primary l) + length (List.filter entry_secondary l)
  = length l.
Proof.
  induction l as [|e l IH]; simpl; [reflexivity|].
  unfold entry_secondary at 1. destruct (entry_primary e); simpl; lia.
Qed.

Lemma parse_emails_selected (E : externals) l v st :
  l <> [] ->
  select_email l = Ok v ->
  parse_emails E (JList l) st =
    match validate_email E v with
    | Ok _ => (Ok tt, UserState (<["email" := v]> (obj st)) (saved st))
    | Raise x => (Raise x, st)
    end.
Proof.
  intros Hl Hs. unfold parse_emails.
  destruct l as [|e r]; [congruence|]. cbn [truthy].
  rewrite (bind_lift_ok _ _ _ _ Hs).
  destruct (validate_email E v) as [[]|x] eqn:Hv.
  - rewrite (bind_lift_ok _ _ _ _ eq_refl). reflexivity.
  - reflexivity.
Qed.

(** C5.  For a non-empty list of entries that are dicts with a str value, the
    selection rule picks the value of the first entry of P followed by S,
    where P rearranges the primary entries in ascending order of value and S
    does the same for the others; [parse_emails] stores that value when the
    validator accepts it and raises what the validator raises otherwise.  On
    the three entries b (not primary), a (primary), z (primary) the value
    picked is a. *)
Theorem select_email_primary_first_ascending (E : externals) (l : list json) :
  l <> [] ->
  Forall (fun e => is_Some (entry_value e)) l ->
  (exists P S e v,
      P ≡ₚ List.filter entry_primary l /\ Sorted value_le P
      /\ S ≡ₚ List.filter entry_secondary l /\ Sorted value_le S
      /\ head (P ++ S) = Some e /\ entry_value e = Some v
      /\ select_email l = Ok (JStr v)
      /\ forall st, parse_emails E (JList l) st =
           match validate_email E (JStr v) with
           | Ok _ => (Ok tt, UserState (<["email" := JStr v]> (obj st)) (saved st))
           | Raise x => (Raise x, st)
           end)
  /\ select_email
       example_emails
     = Ok (JStr "a@x.com").
Proof.
  intros Hl Hwf. split; [|reflexivity].
  pose proof (Forall_list_filter _ entry_primary l Hwf) as HwfP.
  pose proof (Forall_list_filter _ entry_secondary l Hwf) as HwfS.
  destruct (py_sorted_by_value _ HwfP) as (P & HP & HPp & HPs).
  destruct (py_sorted_by_value _ HwfS) as (S & HS & HSp & HSs).
  assert (Hlen : length (P ++ S) = length l).
  { rewrite length_app, HPp, HSp. apply partition_length. }
  assert (HwfPS : Forall (fun e => is_Some (entry_value e)) (P ++ S)).
  { apply Forall_app. split; [rewrite HPp|rewrite HSp]; assumption. }
  destruct (P ++ S) as [|e rest] eqn:HPS.
  { destruct l; [congruence|discriminate]. }
  inversion HwfPS as [|? ? [v Hv] _]; subst.
  assert (Hsel : select_email l = Ok (JStr v)).
  { unfold select_email.
    rewrite (filter_result_primary l Hwf). cbn [rbind]. rewrite HP. cbn [rbind].
    rewrite (filter_result_secondary l Hwf). cbn [rbind]. rewrite HS. cbn [rbind].
    rewrite HPS. apply (entry_value_get e v Hv). }
  exists P, S, e, v. rewrite HPS. repeat split; try assumption.
  intros st. apply parse_emails_selected; assumption.
Qed.

Lemma select_email_primary_first_ascending_witness :
  exists P S e v,
    P ≡ₚ List.filter entry_primary
           example_emails
    /\ Sorted value_le P
    /\ S ≡ₚ List.filter entry_secondary
           example_emails
    /\ Sorted value_le S
    /\ head (P ++ S) = Some e /\ entry_value e = Some v
    /\ select_email
         example_emails
       = Ok (JStr v)
    /\ forall st,
         parse_emails demo
           (JList
              example_emails) st
         = match validate_email demo (JStr v) with
           | Ok _ => (Ok tt, UserState (<["email" := JStr v]> (obj st)) (saved st))
           | Raise x => (Raise x, st)
           end.
Proof.
  apply (select_email_primary_first_ascending demo
    example_emails).
  - discriminate.
  - repeat constructor; simpl; eexists; reflexivity.
Defined.

(** ** Replace on a User: what depends on what *)

Lemma obj_only_lift {A} (r : result A) : obj_only (lift r).
Proof. intros st st' H. simpl. auto. Qed.

Lemma obj_only_raise {A} e : obj_only (raise e : M user_state A).
Proof. intros st st' H. simpl. auto. Qed.

Lemma obj_only_ret {A} (a : A) : obj_only (ret a : M user_state A).
Proof. intros st st' H. simpl. auto. Qed.

Lemma obj_only_setattr name v : obj_only (setattr name v).
Proof. intros st st' H. simpl. rewrite H. auto. Qed.

Lemma obj_only_bind {A B} (m : M user_state A) (k : A -> M user_state B) :
  obj_only m -> (forall a, obj_only (k a)) -> obj_only (bind m k).
Proof.
  intros Hm Hk st st' H. unfold bind.
  destruct (Hm st st' H) as (H1 & H2 & H3).
  destruct (Hm st' st' eq_refl) as (_ & _ & H3').
  destruct (m st) as [[a|e] s1], (m st') as [[a'|e'] s1']; simpl in *;
    try discriminate.
  - injection H1 as ->.
    destruct (Hk a' s1 s1' H2) as (K1 & K2 & K3). rewrite K3.
    repeat split; assumption.
  - injection H1 as ->. repeat split; assumption.
Qed.

Lemma obj_only_parse_emails E value : obj_only (parse_emails E value).
Proof.
  unfold parse_emails. destruct (truthy value); [|apply obj_only_ret].
  apply obj_only_bind; [apply obj_only_lift|]. intros email.
  apply obj_only_bind; [apply obj_only_lift|]. intros _.
  apply obj_only_setattr.
Qed.

Lemma obj_only_replace_item E kv : obj_only (replace_item E kv).
Proof.
  destruct kv as [path value]. unfold replace_item.
  destruct (key_tuple path) as [p|]; [|apply obj_only_raise].
  destruct (attr_map_get SCIMUser_ATTR_MAP p); [apply obj_only_setattr|].
  destruct (decide (p = ("emails", None, None)));
    [apply obj_only_parse_emails|apply obj_only_raise].
Qed.

Lemma save_obj_only E st st' :
  obj st = obj st' ->
  fst (save E st) = fst (save E st')
  /\ obj (snd (save E st)) = obj st
  /\ (fst (save E st) = Ok tt -> snd (save E st) = snd (save E st'))
  /\ (forall e, fst (save E st) = Raise e -> snd (save E st) = st).
Proof.
  intros H. unfold save. rewrite <- H.
  destruct (User_save E (obj st)); cbn; repeat split; try reflexivity;
    try discriminate.
Qed.


(** ** Path-less replace and per-key replaces *)


Section Replace.
Context (E : externals).





End Replace.






(** With str values too the two forms part when a save in the middle of the
    sequence raises: the path-less replace has assigned every key before its
    only save, the sequence stops after the key whose save raised. *)
Lemma pathless_replace_save_in_between :
  handle_operations demo (SCIMUser demo)
    [pathless_replace [("active", JStr "false"); ("userName", JStr "bob")]]
    empty_user
  = (Raise ValidationError,
     UserState (<["username" := JStr "bob"]> (<["is_active" := JStr "false"]> ∅))
               ∅)
  /\ handle_operations demo (SCIMUser demo)
       (map per_key_replace [("active", JStr "false"); ("userName", JStr "bob")])
       empty_user
     = (Raise ValidationError,
        UserState (<["is_active" := JStr "false"]> ∅) ∅).
Proof. split; reflexivity. Qed.

(** ** The empty list of emails *)

Lemma py_get_raise x k e : py_get x k = Raise e -> e = AttributeError.
Proof. destruct x; simpl; congruence. Qed.

Lemma filter_result_raise (p : json -> result bool) l e :
  (forall x e', p x = Raise e' -> e' = AttributeError) ->
  filter_result p l = Raise e -> e = AttributeError.
Proof.
  intros Hp. induction l as [|x l IH]; simpl; [discriminate|].
  destruct (p x) as [b|e'] eqn:Hx; simpl.
  - destruct (filter_result p l); simpl; [discriminate|].
    intros [= <-]. apply IH. reflexivity.
  - intros [= <-]. apply (Hp x), Hx.
Qed.

Lemma is_primary_raise x e : is_primary x = Raise e -> e = AttributeError.
Proof.
  unfold is_primary. destruct (py_get x "primary") eqn:H; simpl; [discriminate|].
  intros [= <-]. apply (py_get_raise _ _ _ H).
Qed.

Lemma not_primary_raise x e : not_primary x = Raise e -> e = AttributeError.
Proof.
  unfold not_primary. destruct (py_get x "primary") eqn:H; simpl; [discriminate|].
  intros [= <-]. apply (py_get_raise _ _ _ H).
Qed.

Lemma map_result_by_value_cases l :
  (exists keys, map_result by_value l = Ok keys /\ length keys = length l)
  \/ map_result by_value l = Raise AttributeError.
Proof.
  induction l as [|x l IH]; simpl.
  - left. exists []. auto.
  - unfold by_value at 1 3. destruct (py_get x "value") as [k|e] eqn:Hx; simpl.
    + destruct IH as [(keys & -> & Hlen)| ->]; simpl.
      * left. exists (k :: keys). simpl. auto.
      * right. reflexivity.
    + right. rewrite (py_get_raise _ _ _ Hx). reflexivity.
Qed.

Lemma py_sorted_cases l :
  (exists l', py_sorted by_value l = Ok l' /\ length l' = length l)
  \/ py_sorted by_value l = Raise AttributeError
  \/ py_sorted by_value l = Raise TypeError.
Proof.
  unfold py_sorted.
  destruct (map_result_by_value_cases l) as [(keys & -> & Hlen)| ->]; simpl;
    [|auto].
  destruct l as [|a [|b r]]; [left; eexists; eauto..|].
  destruct (forallb is_str keys || forallb is_int keys); [|auto].
  left. eexists. split; [reflexivity|].
  rewrite length_map, sort_by_key_perm, length_zip. lia.
Qed.

Lemma filter_result_partition l P S :
  filter_result is_primary l = Ok P ->
  filter_result not_primary l = Ok S ->
  length P + length S = length l.
Proof.
  revert P S. induction l as [|x l IH]; simpl; intros P S.
  - intros [= <-] [= <-]. reflexivity.
  - unfold is_primary at 1, not_primary at 1.
    destruct (py_get x "primary") as [v|]; simpl; [|discriminate].
    destruct (filter_result is_primary l) as [P'|]; simpl; [|discriminate].
    destruct (filter_result not_primary l) as [S'|]; simpl; [|discriminate].
    specialize (IH P' S' eq_refl eq_refl).
    destruct (truthy v); simpl; intros [= <-] [= <-]; simpl; lia.
Qed.

(** On a list that is not empty the selection never takes its own raise of
    BadRequest: some entry is left after the partition.  What it can raise
    comes from entries that are not dicts or whose values are unordered. *)
Lemma select_email_raise l e :
  l <> [] -> select_email l = Raise e -> e = AttributeError \/ e = TypeError.
Proof.
  intros Hl. unfold select_email.
  destruct (filter_result is_primary l) as [P|e1] eqn:HP; simpl.
  2:{ intros [= <-]. left.
      apply (filter_result_raise _ _ _ is_primary_raise HP). }
  destruct (py_sorted_cases P) as [(P' & -> & HlenP)|[-> | ->]]; simpl;
    [|intros [= <-]; auto..].
  destruct (filter_result not_primary l) as [S|e2] eqn:HS; simpl.
  2:{ intros [= <-]. left.
      apply (filter_result_raise _ _ _ not_primary_raise HS). }
  destruct (py_sorted_cases S) as [(S' & -> & HlenS)|[-> | ->]]; simpl;
    [|intros [= <-]; auto..].
  pose proof (filter_result_partition l P S HP HS) as Hlen.
  destruct (P' ++ S') as [|x rest] eqn:HPS.
  - apply (f_equal length) in HPS. rewrite length_app in HPS. simpl in HPS.
    destruct l; [congruence|simpl in Hlen; lia].
  - intros Hx. left. apply (py_get_raise _ _ _ Hx).
Qed.

(** C1, amended.  An empty list of emails makes [parse_emails] return without
    an error and without touching the state: the guard on the truth of the
    value skips the whole rule.  For a list that is not empty the call either
    raises and leaves the state as it was, or returns and has stored the
    value that the selection rule picked; what it raises is what the
    validator raised on the value picked (BadRequest, Invalid email value,
    for a validation error), or [AttributeError] or [TypeError] from entries
    that are not dicts or cannot be ordered. *)
Theorem parse_emails_list (E : externals) (l : list json) st :
  (l = [] -> parse_emails E (JList l) st = (Ok tt, st))
  /\ (l <> [] ->
        (exists e, parse_emails E (JList l) st = (Raise e, st)
                   /\ (e = AttributeError \/ e = TypeError
                       \/ exists v, select_email l = Ok v
                                    /\ validate_email E v = Raise e))
        \/ (exists v, select_email l = Ok v
                      /\ validate_email E v = Ok tt
                      /\ parse_emails E (JList l) st
                         = (Ok tt, UserState (<["email" := v]> (obj st)) (saved st)))).
Proof.
  split.
  - intros ->. reflexivity.
  - intros Hl. destruct (select_email l) as [v|e] eqn:Hs.
    + rewrite (parse_emails_selected E l v st Hl Hs).
      destruct (validate_email E v) as [[]|x] eqn:Hv.
      * right. exists v. split; [reflexivity|]. split; [exact Hv|reflexivity].
      * left. exists x. split; [reflexivity|]. right. right. exists v. auto.
    + left. exists e. split.
      * unfold parse_emails. destruct l as [|a r]; [congruence|]. cbn [truthy].
        apply bind_lift_raise, Hs.
      * destruct (select_email_raise l e Hl Hs); auto.
Qed.

Lemma parse_emails_list_witness :
  parse_emails demo (JList []) empty_user = (Ok tt, empty_user).
Proof.
  apply (parse_emails_list demo [] empty_user). reflexivity.
Defined.

(** C1 as stated fails: on the empty list no BadRequest is raised, the call
    returns and the stored email stays as it was. *)
Lemma parse_emails_empty_list_returns :
  parse_emails demo (JList []) (UserState (<["email" := JStr "old@x.com"]> ∅) ∅)
  = (Ok tt, UserState (<["email" := JStr "old@x.com"]> ∅) ∅)
  /\ fst (parse_emails demo (JList [])
            (UserState (<["email" := JStr "old@x.com"]> ∅) ∅))
     <> Raise invalid_email.
Proof. split; [reflexivity|]. simpl. discriminate. Qed.


(** * Further properties of the adapters *)

(** ** Group: removing members *)

Lemma for_each_user_set_remove (l : list Z) st :
  for_each l user_set_remove st
  = (Ok tt, GroupState (group_obj st) (group_saved st)
                       (user_set st ∖ list_to_set l) (users st)).
Proof.
  revert st. induction l as [|u l IH]; intros st.
  - rewrite list_to_set_nil. cbn [for_each]. unfold ret.
    destruct st; cbn. f_equal. f_equal. set_solver.
  - rewrite list_to_set_cons. cbn [for_each]. unfold bind, user_set_remove at 1.
    rewrite IH. cbn. f_equal. f_equal. set_solver.
Qed.

Lemma handle_remove_members (E : externals) value op ids st :
  member_ids E value = Ok ids ->
  SCIMGroup_handle_remove E members_path value op st =
    let found := filter (fun u => u ∈ ids) (users st) in
    if negb (length ids =? size found)%nat then
      (Raise (BadRequestError "Can not remove a non-existent user from group" None),
       st)
    else
      (Ok tt, GroupState (group_obj st) (group_saved st)
                         (user_set st ∖ found) (users st)).
Proof.
  intros Hm. unfold SCIMGroup_handle_remove.
  rewrite decide_True by reflexivity.
  rewrite (bind_lift_ok _ _ _ _ Hm). unfold bind, filter_id_in. simpl.
  destruct (negb (length ids =? size (filter (fun u => u ∈ ids) (users st)))%nat);
    [reflexivity|].
  rewrite for_each_user_set_remove. rewrite list_to_set_elements_L.
  reflexivity.
Qed.

(** The count check passes exactly for pairwise distinct ids that are all
    rows of the user table. *)
Lemma count_check (ids : list Z) (table : gset Z) :
  length ids = size (filter (fun u => u ∈ ids) table)
  <-> NoDup ids /\ Forall (fun i => i ∈ table) ids.
Proof.
  split.
  - intros Hlen.
    pose proof (size_list_to_set_le ids) as Hle.
    assert (Hsub : size (filter (fun u => u ∈ ids) table)
                   <= size (list_to_set ids : gset Z))
      by apply subseteq_size, filter_id_in_subseteq.
    split.
    + destruct (decide (NoDup ids)) as [Hn|Hn]; [exact Hn|].
      pose proof (size_list_to_set_dup ids Hn). lia.
    + apply Forall_forall. intros i Hi.
      destruct (decide (i ∈ table)) as [Ht|Ht]; [exact Ht|].
      assert (size (filter (fun u => u ∈ ids) table)
              < size (list_to_set ids : gset Z)); [|lia].
      apply subset_size. split; [apply filter_id_in_subseteq|].
      intros Hs. apply Ht.
      assert (Hin : i ∈ filter (fun u => u ∈ ids) table)
        by (apply Hs, elem_of_list_to_set, Hi).
      apply elem_of_filter in Hin. tauto.
  - intros [Hn Ha]. rewrite (filter_id_in_all ids table Ha).
    rewrite size_list_to_set by exact Hn. reflexivity.
Qed.

(** X1.  A Group remove on the members path, once the ids are read, succeeds
    exactly when the ids are pairwise distinct and all rows of the user
    table: then the membership loses those ids and nothing else changes;
    otherwise BadRequest (Can not remove a non-existent user from group) is
    raised and the state is as before. *)
Theorem handle_remove_outcome (E : externals) value op ids st :
  member_ids E value = Ok ids ->
  (NoDup ids /\ Forall (fun i => i ∈ users st) ids ->
     SCIMGroup_handle_remove E members_path value op st
     = (Ok tt, GroupState (group_obj st) (group_saved st)
                          (user_set st ∖ list_to_set ids) (users st)))
  /\ (¬ (NoDup ids /\ Forall (fun i => i ∈ users st) ids) ->
        SCIMGroup_handle_remove E members_path value op st
        = (Raise (BadRequestError
                    "Can not remove a non-existent user from group" None), st)).
Proof.
  intros Hm. rewrite (handle_remove_members E value op ids st Hm). cbv zeta.
  split.
  - intros Hok. pose proof Hok as [Hn Ha].
    apply count_check in Hok. rewrite <- Hok, Nat.eqb_refl. cbn [negb].
    rewrite (filter_id_in_all ids (users st) Ha). reflexivity.
  - intros Hno.
    destruct (Nat.eqb_spec (length ids)
                (size (filter (fun u => u ∈ ids) (users st)))) as [Heq|Hne];
      [|reflexivity].
    apply count_check in Heq. contradiction.
Qed.

Lemma handle_remove_outcome_witness :
  SCIMGroup_handle_remove demo members_path
    (VJson (JList [JDict [("value", JStr "2")]]))
    (Operation (JStr "remove") (JStr "members") JNull)
    (group_of [1%Z; 2%Z] [1%Z; 2%Z])
  = (Ok tt, GroupState ∅ ∅ (list_to_set [1%Z; 2%Z] ∖ list_to_set [2%Z])
                       (list_to_set [1%Z; 2%Z])).
Proof.
  apply (handle_remove_outcome demo _ _ [2%Z] (group_of [1%Z; 2%Z] [1%Z; 2%Z])).
  - reflexivity.
  - split; [repeat constructor; set_solver|].
    cbn. repeat constructor; set_solver.
Defined.



(** X3.  Adding users that exist and are not yet members, then removing the
    same list, gives back the state the group started from. *)
Theorem handle_add_then_remove (E : externals) value op op' ids st :
  member_ids E value = Ok ids ->
  NoDup ids ->
  Forall (fun i => i ∈ users st) ids ->
  Forall (fun i => i ∉ user_set st) ids ->
  bind (SCIMGroup_handle_add E members_path value op)
       (fun _ => SCIMGroup_handle_remove E members_path value op') st
  = (Ok tt, st).
Proof.
  intros Hm Hn Ha Hout.
  rewrite (bind_ok _ _ _ _ _ (handle_add_all_known E value op ids st Hm Hn Ha)).
  rewrite (handle_remove_members E value op' ids _ Hm). cbv zeta. cbn [users user_set group_obj group_saved].
  rewrite (filter_id_in_all ids (users st) Ha).
  rewrite size_list_to_set by exact Hn. rewrite Nat.eqb_refl. cbn [negb].
  destruct st as [o sv us tb]. cbn. f_equal. f_equal.
  cbn in Hout. rewrite Forall_forall in Hout.
  apply set_eq. intros x.
  rewrite elem_of_difference, elem_of_union, elem_of_list_to_set.
  split; [tauto|]. intros Hx. split; [tauto|]. intros Hi. apply (Hout x Hi Hx).
Qed.

Lemma handle_add_then_remove_witness :
  bind (SCIMGroup_handle_add demo members_path
          (VJson (JList [JDict [("value", JStr "2")]]))
          (Operation (JStr "add") (JStr "members") JNull))
       (fun _ => SCIMGroup_handle_remove demo members_path
          (VJson (JList [JDict [("value", JStr "2")]]))
          (Operation (JStr "remove") (JStr "members") JNull))
       (group_of [1%Z] [1%Z; 2%Z])
  = (Ok tt, group_of [1%Z] [1%Z; 2%Z]).
Proof.
  apply (handle_add_then_remove demo _ _ _ [2%Z]).
  - reflexivity.
  - repeat constructor; set_solver.
  - cbn. repeat constructor; set_solver.
  - cbn. repeat constructor; set_solver.
Defined.

(** ** Group: what the handlers leave alone *)

(** X4.  Whatever the path and the value, a Group add never removes a member
    and a Group remove never adds one; neither touches the attributes of the
    group, its saved row or the user table; and a call that raises leaves the
    whole state as it was. *)
Theorem group_membership_handlers_frame (E : externals) path value op st :
  (let r := SCIMGroup_handle_add E path value op st in
   user_set st ⊆ user_set (snd r)
   /\ group_obj (snd r) = group_obj st
   /\ group_saved (snd r) = group_saved st
   /\ users (snd r) = users st
   /\ forall e, fst r = Raise e -> snd r = st)
  /\ (let r := SCIMGroup_handle_remove E path value op st in
      user_set (snd r) ⊆ user_set st
      /\ group_obj (snd r) = group_obj st
      /\ group_saved (snd r) = group_saved st
      /\ users (snd r) = users st
      /\ forall e, fst r = Raise e -> snd r = st).
Proof.
  split; cbv zeta.
  - destruct (decide (path = members_path)) as [->|Hp].
    + destruct (member_ids E value) as [ids|e] eqn:Hm.
      * rewrite (handle_add_members E value op ids st Hm). cbv zeta.
        destruct (negb _); cbn; repeat split; try reflexivity;
          try set_solver; congruence.
      * unfold SCIMGroup_handle_add. rewrite decide_True by reflexivity.
        rewrite (bind_lift_raise _ _ _ _ Hm). cbn. repeat split; reflexivity.
    + unfold SCIMGroup_handle_add. rewrite decide_False by exact Hp.
      cbn. repeat split; reflexivity.
  - destruct (decide (path = members_path)) as [->|Hp].
    + destruct (member_ids E value) as [ids|e] eqn:Hm.
      * rewrite (handle_remove_members E value op ids st Hm). cbv zeta.
        destruct (negb _); cbn; repeat split; try reflexivity;
          try set_solver; congruence.
      * unfold SCIMGroup_handle_remove. rewrite decide_True by reflexivity.
        rewrite (bind_lift_raise _ _ _ _ Hm). cbn. repeat split; reflexivity.
    + unfold SCIMGroup_handle_remove. rewrite decide_False by exact Hp.
      cbn. repeat split; reflexivity.
Qed.

(** X5.  Whatever the path and the value, a Group replace never touches the
    membership or the user table.  When it returns, the path was the name
    path, the name is the value entry of the first item of the value, and the
    saved row is equal to the attributes in memory.  When it raises, nothing
    is saved; the state is as before, unless the exception is the one that
    [save] raised, in which case the name is already assigned in memory. *)
Theorem group_replace_outcome (E : externals) path value op st :
  let r := SCIMGroup_handle_replace E path value op st in
  user_set (snd r) = user_set st
  /\ users (snd r) = users st
  /\ (fst r = Ok tt ->
        path = name_path
        /\ exists first name,
             py_first value = Ok first /\ py_get first "value" = Ok name
             /\ group_obj (snd r) = <["name" := name]> (group_obj st)
             /\ group_saved (snd r) = group_obj (snd r))
  /\ (forall e, fst r = Raise e ->
        group_saved (snd r) = group_saved st
        /\ (snd r = st
            \/ exists first name,
                 py_first value = Ok first /\ py_get first "value" = Ok name
                 /\ Group_save E (<["name" := name]> (group_obj st)) = Some e
                 /\ group_obj (snd r) = <["name" := name]> (group_obj st))).
Proof.
  cbv zeta. unfold SCIMGroup_handle_replace.
  destruct (decide (path = name_path)) as [->|Hp].
  - unfold bind, lift.
    destruct (py_first value) as [first|e] eqn:Hf.
    + destruct (py_get first "value") as [name|e] eqn:Hg.
      * unfold group_save. cbn [group_obj group_saved user_set users].
        destruct (Group_save E (<["name" := name]> (group_obj st))) as [x|] eqn:Hs;
          cbn.
        -- repeat split; try reflexivity; try discriminate.
           injection H as <-. right.
           exists first, name. repeat split; assumption.
        -- repeat split; try reflexivity; try discriminate.
           exists first, name. repeat split; assumption.
      * cbn. repeat split; try reflexivity; try discriminate. left. reflexivity.
    + cbn. repeat split; try reflexivity; try discriminate. left. reflexivity.
  - cbn. repeat split; try reflexivity; try discriminate. left. reflexivity.
Qed.

(** The two ways a Group replace of the name can fail on a list: an empty
    list stops before anything is assigned, a null name stops in [save] with
    the name already assigned in memory. *)
Lemma group_replace_failures :
  SCIMGroup_handle_replace demo name_path (VJson (JList []))
    (Operation (JStr "replace") (JStr "name") (JList []))
    (GroupState (<["name" := JStr "staff"]> ∅) (<["name" := JStr "staff"]> ∅) ∅ ∅)
  = (Raise IndexError,
     GroupState (<["name" := JStr "staff"]> ∅) (<["name" := JStr "staff"]> ∅) ∅ ∅)
  /\ SCIMGroup_handle_replace demo name_path
       (VJson (JList [JDict [("value", JNull)]]))
       (Operation (JStr "replace") (JStr "name") (JList [JDict [("value", JNull)]]))
       (GroupState (<["name" := JStr "staff"]> ∅) (<["name" := JStr "staff"]> ∅) ∅ ∅)
     = (Raise (LibraryError "IntegrityError"),
        GroupState (<["name" := JNull]> (<["name" := JStr "staff"]> ∅))
                   (<["name" := JStr "staff"]> ∅) ∅ ∅).
Proof. split; reflexivity. Qed.

(** ** Paths that resolve to more than one fragment *)

Lemma parse_path_and_value_with_path (E : externals) {St} (self : adapter St)
    (path value : json) :
  truthy path = true ->
  parse_path_and_value E self path value =
    try new_path <- split_path E self path in Ok (Some new_path, VJson value).
Proof.
  intros Hp. unfold parse_path_and_value. rewrite Hp.
  destruct value; reflexivity.
Qed.

Lemma split_path_complex (E : externals) {St} (self : adapter St)
    (k : string) p1 p2 ps :
  AttrPaths E (filter_of k) (ATTR_MAP self) = Ok (p1 :: p2 :: ps) ->
  split_path E self (JStr k) = Ok (ComplexAttrPath k (p1 :: p2 :: ps)).
Proof. unfold split_path. intros ->. reflexivity. Qed.

(** X6.  On a Group, an operation with a valid op code, in any casing, whose
    non-empty path resolves to more than one fragment is refused with
    NotImplemented whatever its value, and the state is as before. *)
Theorem group_complex_path_refused
    (E : externals) (o : operation) (c k : string) p1 p2 ps st :
  get_op o = JStr c ->
  lower c ∈ VALID_PATCH_OPS ->
  get_path o = JStr k ->
  k <> EmptyString ->
  AttrPaths E (filter_of k) [] = Ok (p1 :: p2 :: ps) ->
  handle_operation E (SCIMGroup E) o st = (Raise (NotImplementedError None), st).
Proof.
  intros Hc Hv Hp Hk Hr.
  assert (Hn : parse_path_and_value E (SCIMGroup E) (get_path o) (get_value o)
               = Ok (Some (ComplexAttrPath k (p1 :: p2 :: ps)),
                     VJson (get_value o))).
  { rewrite Hp, parse_path_and_value_with_path.
    - rewrite (split_path_complex E (SCIMGroup E) k p1 p2 ps Hr). reflexivity.
    - simpl. apply negb_true_iff, String.eqb_neq, Hk. }
  rewrite (handle_operation_normalised E (SCIMGroup E) o _ _ c st Hn Hc).
  rewrite bool_decide_eq_true_2 by exact Hv. cbn [negb].
  apply valid_op_cases in Hv. destruct Hv as [-> | [-> | ->]]; reflexivity.
Qed.

Lemma group_complex_path_refused_witness :
  handle_operation demo_two_fragments (SCIMGroup demo_two_fragments)
    (Operation (JStr "Remove") (JStr "members[value eq 1]") JNull)
    (group_of [1%Z] [1%Z])
  = (Raise (NotImplementedError None), group_of [1%Z] [1%Z]).
Proof.
  apply (group_complex_path_refused demo_two_fragments _ "Remove"
           "members[value eq 1]"
           ("members", None, None) ("value", None, None) []).
  - reflexivity.
  - unfold VALID_PATCH_OPS. cbn. set_solver.
  - reflexivity.
  - discriminate.
  - reflexivity.
Defined.

(** X7.  On a User, an operation with a valid op code whose non-empty path
    resolves to more than one fragment never writes an attribute, and unless
    its value is the empty mapping (a replace then only saves) it is refused
    with NotImplemented and the state is as before. *)
Theorem user_complex_path_refused
    (E : externals) (o : operation) (c k : string) p1 p2 ps st :
  get_op o = JStr c ->
  lower c ∈ VALID_PATCH_OPS ->
  get_path o = JStr k ->
  k <> EmptyString ->
  AttrPaths E (filter_of k) SCIMUser_ATTR_MAP = Ok (p1 :: p2 :: ps) ->
  obj (snd (handle_operation E (SCIMUser E) o st)) = obj st
  /\ (get_value o <> JDict [] ->
        exists detail,
          handle_operation E (SCIMUser E) o st
          = (Raise (NotImplementedError detail), st)).
Proof.
  intros Hc Hv Hp Hk Hr.
  assert (Hn : parse_path_and_value E (SCIMUser E) (get_path o) (get_value o)
               = Ok (Some (ComplexAttrPath k (p1 :: p2 :: ps)),
                     VJson (get_value o))).
  { rewrite Hp, parse_path_and_value_with_path.
    - rewrite (split_path_complex E (SCIMUser E) k p1 p2 ps Hr). reflexivity.
    - simpl. apply negb_true_iff, String.eqb_neq, Hk. }
  rewrite (handle_operation_normalised E (SCIMUser E) o _ _ c st Hn Hc).
  rewrite bool_decide_eq_true_2 by exact Hv. cbn [negb].
  apply valid_op_cases in Hv. destruct Hv as [-> | [-> | ->]].
  - split; [reflexivity|]. intros _. eexists. reflexivity.
  - split; [reflexivity|]. intros _. eexists. reflexivity.
  - change (obj (snd (SCIMUser_handle_replace E
                         (Some (ComplexAttrPath k (p1 :: p2 :: ps)))
                         (VJson (get_value o)) o st)) = obj st
            /\ (get_value o <> JDict [] ->
                 exists detail,
                   SCIMUser_handle_replace E
                     (Some (ComplexAttrPath k (p1 :: p2 :: ps)))
                     (VJson (get_value o)) o st
                   = (Raise (NotImplementedError detail), st))).
    destruct (get_value o) as [| | | |l|[|kv d]];
      try (cbn; split; [reflexivity|]; intros _; eexists; reflexivity).
    split; [|congruence].
    unfold SCIMUser_handle_replace. cbn [is_dict_val is_dict negb items map].
    cbn [for_each]. unfold bind, ret.
    apply (save_obj_only E st st eq_refl).
Qed.

Lemma user_complex_path_refused_witness :
  exists detail,
    handle_operation demo_two_fragments (SCIMUser demo_two_fragments)
      (Operation (JStr "replace") (JStr "emails[type eq 1].value") (JStr "a@x.com"))
      empty_user
    = (Raise (NotImplementedError detail), empty_user).
Proof.
  apply (user_complex_path_refused demo_two_fragments _ "replace"
           "emails[type eq 1].value"
           ("members", None, None) ("value", None, None) []).
  - reflexivity.
  - unfold VALID_PATCH_OPS. cbn. set_solver.
  - reflexivity.
  - discriminate.
  - reflexivity.
  - discriminate.
Defined.

(** ** User: add and remove *)

(** X8.  On a User, an operation whose op code lower-cases to add or to
    remove never succeeds and never changes the state.  What it raises is the
    exception of the normaliser when the path and value do not normalise;
    otherwise NotImplemented, or, for a remove whose normalised path is
    absent, the noTarget BadRequest. *)
Theorem user_add_remove_never_apply
    (E : externals) (o : operation) (c : string) st :
  get_op o = JStr c ->
  lower c = "add" \/ lower c = "remove" ->
  exists e,
    handle_operation E (SCIMUser E) o st = (Raise e, st)
    /\ match parse_path_and_value E (SCIMUser E) (get_path o) (get_value o) with
       | Raise x => e = x
       | Ok (None, _) =>
           e = if String.eqb (lower c) "remove"
               then BadRequestError remove_needs_path_msg (Some "noTarget")
               else NotImplementedError None
       | Ok (Some _, _) => e = NotImplementedError None
       end.
Proof.
  intros Hc Hl.
  destruct (parse_path_and_value E (SCIMUser E) (get_path o) (get_value o))
    as [[path value]|e] eqn:Hn.
  - rewrite (handle_operation_normalised E (SCIMUser E) o path value c st Hn Hc).
    destruct Hl as [-> | ->].
    + destruct path; eexists; split; reflexivity.
    + destruct path; eexists; split; reflexivity.
  - exists e. split; [|reflexivity].
    apply handle_operation_normalise_raise, Hn.
Qed.

Lemma user_add_remove_never_apply_witness :
  exists e,
    handle_operation demo (SCIMUser demo)
      (Operation (JStr "ADD") (JStr "userName") (JStr "bob")) empty_user
    = (Raise e, empty_user)
    /\ e = NotImplementedError None.
Proof.
  apply (user_add_remove_never_apply demo
           (Operation (JStr "ADD") (JStr "userName") (JStr "bob")) "ADD").
  - reflexivity.
  - left. reflexivity.
Defined.

(** ** User: replace and the saved row *)

Lemma obj_only_for_each E (its : list (dict_key * json)) :
  obj_only (for_each its (replace_item E)).
Proof.
  induction its as [|kv r IH]; cbn [for_each].
  - apply obj_only_ret.
  - apply obj_only_bind; [apply obj_only_replace_item|]. intros _. exact IH.
Qed.

(** X9.  Whatever the path and the value, a User replace that returns has
    saved: the saved row is equal to the attributes in memory.  One that
    raises has saved nothing: the saved row is the one before, whatever was
    already assigned in memory. *)
Theorem user_replace_saves_on_success_only (E : externals) path value op st :
  let r := SCIMUser_handle_replace E path value op st in
  (fst r = Ok tt -> saved (snd r) = obj (snd r))
  /\ (forall e, fst r = Raise e -> saved (snd r) = saved st).
Proof.
  cbv zeta. unfold SCIMUser_handle_replace.
  match goal with |- context [is_dict_val ?v] => set (value' := v) end.
  destruct (negb (is_dict_val value')).
  - cbn. split; [discriminate|reflexivity].
  - destruct (obj_only_for_each E (items value') st st eq_refl) as (_ & _ & Hs).
    unfold bind.
    destruct (for_each (items value') (replace_item E) st) as [[[]|e] s1];
      cbn in *.
    + unfold save. destruct (User_save E (obj s1)); cbn.
      * split; [discriminate|]. intros _ _. exact Hs.
      * split; [reflexivity|discriminate].
    + split; [discriminate|]. intros _ _. exact Hs.
Qed.

(** ** User: what a replace assigns *)

(** X10.  On a User, a replace, in any casing, that names a path of the
    attribute map and carries a str assigns that str to the mapped field in
    memory, whichever of the paths mapped to the field was named, and then
    saves: when [save] returns the row holds the new attributes; when [save]
    raises, its exception comes out, the assignment stays in memory and the
    row is the one before. *)
Theorem user_replace_attribute
    (E : externals) (o : operation) (c k s : string) p field st :
  get_op o = JStr c ->
  lower c = "replace" ->
  get_path o = JStr k ->
  get_value o = JStr s ->
  AttrPaths E (filter_of k) SCIMUser_ATTR_MAP = Ok [p] ->
  attr_map_get SCIMUser_ATTR_MAP p = Some field ->
  handle_operation E (SCIMUser E) o st
  = match User_save E (<[field := JStr s]> (obj st)) with
    | None => (Ok tt, UserState (<[field := JStr s]> (obj st))
                                (<[field := JStr s]> (obj st)))
    | Some e => (Raise e, UserState (<[field := JStr s]> (obj st)) (saved st))
    end.
Proof.
  intros Hc Hl Hp Hv Hr Hf.
  assert (Hn : parse_path_and_value E (SCIMUser E) (get_path o) (get_value o)
               = Ok (Some (AttrPath p), VJson (JStr s))).
  { rewrite Hp, Hv, parse_path_and_value_not_dict by reflexivity.
    rewrite (split_path_single E (SCIMUser E) k p Hr). reflexivity. }
  rewrite (handle_operation_normalised E (SCIMUser E) o _ _ c st Hn Hc).
  rewrite Hl.
  transitivity
    (SCIMUser_handle_replace E (Some (AttrPath p)) (VJson (JStr s)) o st);
    [reflexivity|].
  unfold SCIMUser_handle_replace. cbn [is_dict_val negb items map fst snd].
  cbn [for_each]. unfold replace_item. cbn [key_tuple]. rewrite Hf.
  unfold bind, setattr, ret, save. cbn [obj saved].
  destruct (User_save E (<[field := JStr s]> (obj st))); reflexivity.
Qed.

Lemma user_replace_attribute_witness :
  handle_operation demo (SCIMUser demo)
    (Operation (JStr "Replace") (JStr "name.familyName") (JStr "Doe")) empty_user
  = (Ok tt, UserState (<["last_name" := JStr "Doe"]> ∅)
                      (<["last_name" := JStr "Doe"]> ∅))
  /\ handle_operation demo (SCIMUser demo)
       (Operation (JStr "replace") (JStr "active") (JStr "false")) empty_user
     = (Raise ValidationError, UserState (<["is_active" := JStr "false"]> ∅) ∅).
Proof.
  split.
  - rewrite (user_replace_attribute demo _ "Replace" "name.familyName" "Doe"
               ("name", Some "familyName", None) "last_name" empty_user);
      reflexivity.
  - rewrite (user_replace_attribute demo _ "replace" "active" "false"
               ("active", None, None) "is_active" empty_user);
      reflexivity.
Defined.

(** X11.  A User replace that is given a path accepts a str only: with any
    other value it never writes an attribute.  It raises NotImplemented and
    leaves the state as it was, except for the empty mapping, on which it
    does nothing but save: the row takes the attributes in memory when [save]
    returns, and the exception of [save] comes out with the state as it was
    otherwise. *)
Theorem user_replace_with_path_needs_str (E : externals) p (j : json) op st :
  is_str j = false ->
  let r := SCIMUser_handle_replace E (Some p) (VJson j) op st in
  obj (snd r) = obj st
  /\ (j = JDict [] ->
        r = match User_save E (obj st) with
            | None => (Ok tt, UserState (obj st) (obj st))
            | Some e => (Raise e, st)
            end)
  /\ (j <> JDict [] -> exists detail, r = (Raise (NotImplementedError detail), st)).
Proof.
  intros Hs. cbv zeta.
  destruct j as [| | | |l|[|kv d]]; try discriminate;
    try (cbn; (split; [reflexivity|]); (split; [discriminate|]);
         intros _; eexists; reflexivity).
  unfold SCIMUser_handle_replace. cbn [is_dict_val is_dict negb items map].
  cbn [for_each]. unfold bind, ret.
  split; [apply (save_obj_only E st st eq_refl)|].
  split; [reflexivity|congruence].
Qed.

Lemma user_replace_with_path_needs_str_witness :
  exists detail,
    SCIMUser_handle_replace demo (Some (AttrPath ("active", None, None)))
      (VJson (JBool false)) (Operation (JStr "replace") (JStr "active") (JBool false))
      empty_user
    = (Raise (NotImplementedError detail), empty_user).
Proof.
  apply (user_replace_with_path_needs_str demo (AttrPath ("active", None, None))
           (JBool false)).
  - reflexivity.
  - discriminate.
Defined.

Lemma for_each_assign (E : externals) (kvs : list (attr_path * json)) : forall st,
  Forall (fun kv => is_Some (attr_map_get SCIMUser_ATTR_MAP (fst kv))) kvs ->
  for_each (loop_items (tuple_items kvs)) (replace_item E) st
  = (Ok tt, UserState (assign_all (obj st) kvs) (saved st)).
Proof.
  induction kvs as [|[p v] r IH]; intros st Hin.
  - destruct st. reflexivity.
  - inversion Hin as [|? ? [f Hf] Hr]; subst. cbn [fst] in Hf.
    unfold tuple_items, loop_items. cbn [map for_each fst snd].
    assert (Hstep : replace_item E (KeyPath (AttrPath p), v) st
                    = (Ok tt, UserState (assign (obj st) (p, v)) (saved st))).
    { unfold replace_item, assign. cbn [key_tuple fst snd]. rewrite Hf.
      reflexivity. }
    rewrite (bind_ok _ _ _ _ _ Hstep).
    change (for_each (loop_items (tuple_items r)) (replace_item E)
              (UserState (assign (obj st) (p, v)) (saved st))
            = (Ok tt, UserState (assign_all (obj st) ((p, v) :: r)) (saved st))).
    rewrite IH by exact Hr. reflexivity.
Qed.

Lemma for_each_app {St A} (l1 l2 : list A) (body : A -> M St unit) st :
  for_each (l1 ++ l2) body st
  = bind (for_each l1 body) (fun _ => for_each l2 body) st.
Proof.
  revert st. induction l1 as [|x l1 IH]; intros st; cbn [for_each app].
  - reflexivity.
  - rewrite bind_assoc.
    destruct (body x st) as [[[]|e] s1] eqn:R.
    + rewrite !(bind_ok _ _ _ _ _ R). apply IH.
    + rewrite !(bind_raise _ _ _ _ _ R). reflexivity.
Qed.

(** X12.  A path-less User replace whose normalised mapping has only paths
    of the attribute map assigns its values in order, a later one winning
    over an earlier one on the same field, and then saves: when [save]
    returns the row holds the new attributes; when [save] raises, its
    exception comes out, the assignments stay in memory and the row is the
    one before. *)
Theorem user_replace_assigns_all
    (E : externals) (kvs : list (attr_path * json)) op st :
  Forall (fun kv => is_Some (attr_map_get SCIMUser_ATTR_MAP (fst kv))) kvs ->
  SCIMUser_handle_replace E None (VPaths (tuple_items kvs)) op st
  = match User_save E (assign_all (obj st) kvs) with
    | None => (Ok tt, UserState (assign_all (obj st) kvs)
                                (assign_all (obj st) kvs))
    | Some e => (Raise e, UserState (assign_all (obj st) kvs) (saved st))
    end.
Proof.
  intros Hin. unfold SCIMUser_handle_replace. cbn [is_dict_val negb].
  change (items (VPaths (tuple_items kvs))) with (loop_items (tuple_items kvs)).
  rewrite (bind_ok _ _ _ _ _ (for_each_assign E kvs st Hin)).
  unfold save. cbn [obj saved].
  destruct (User_save E (assign_all (obj st) kvs)); reflexivity.
Qed.

Lemma user_replace_assigns_all_witness :
  SCIMUser_handle_replace demo None
    (VPaths (tuple_items [(("familyName", None, None), JStr "A");
                          (("name", Some "familyName", None), JStr "B")]))
    (Operation (JStr "replace") JNull JNull) empty_user
  = (Ok tt, UserState (<["last_name" := JStr "B"]> (<["last_name" := JStr "A"]> ∅))
                      (<["last_name" := JStr "B"]> (<["last_name" := JStr "A"]> ∅)))
  /\ SCIMUser_handle_replace demo None
       (VPaths (tuple_items [(("userName", None, None), JStr "bob");
                             (("active", None, None), JStr "false")]))
       (Operation (JStr "replace") JNull JNull) empty_user
     = (Raise ValidationError,
        UserState (<["is_active" := JStr "false"]> (<["username" := JStr "bob"]> ∅))
                  ∅).
Proof.
  split.
  - rewrite (user_replace_assigns_all demo
               [(("familyName", None, None), JStr "A");
                (("name", Some "familyName", None), JStr "B")]);
      [reflexivity|].
    repeat constructor; eexists; reflexivity.
  - rewrite (user_replace_assigns_all demo
               [(("userName", None, None), JStr "bob");
                (("active", None, None), JStr "false")]);
      [reflexivity|].
    repeat constructor; eexists; reflexivity.
Defined.

(** X13.  A path-less User replace that meets a path it does not support
    raises NotImplemented there: the values of the paths before it are
    already assigned in memory, none of the later ones is, and nothing is
    saved. *)
Theorem user_replace_stops_at_unsupported
    (E : externals) (pre : list (attr_path * json)) q w post op st :
  Forall (fun kv => is_Some (attr_map_get SCIMUser_ATTR_MAP (fst kv))) pre ->
  (forall p, q = AttrPath p ->
     attr_map_get SCIMUser_ATTR_MAP p = None /\ p <> ("emails", None, None)) ->
  SCIMUser_handle_replace E None (VPaths (tuple_items pre ++ (q, w) :: post)) op st
  = (Raise (NotImplementedError (Some "Not Implemented")),
     UserState (assign_all (obj st) pre) (saved st)).
Proof.
  intros Hin Hq. unfold SCIMUser_handle_replace. cbn [is_dict_val negb].
  change (items (VPaths (tuple_items pre ++ (q, w) :: post)))
    with (loop_items (tuple_items pre ++ (q, w) :: post)).
  unfold loop_items. rewrite map_app. cbn [map fst snd].
  fold (loop_items (tuple_items pre)).
  assert (Hq' : replace_item E (KeyPath q, w)
                  (UserState (assign_all (obj st) pre) (saved st))
                = (Raise (NotImplementedError (Some "Not Implemented")),
                   UserState (assign_all (obj st) pre) (saved st))).
  { unfold replace_item. destruct q as [p|k ps]; cbn [key_tuple]; [|reflexivity].
    destruct (Hq p eq_refl) as [-> Hne].
    rewrite decide_False by exact Hne. reflexivity. }
  apply bind_raise. rewrite for_each_app.
  rewrite (bind_ok _ _ _ _ _ (for_each_assign E pre st Hin)).
  cbn [for_each]. apply bind_raise, Hq'.
Qed.

Lemma user_replace_stops_at_unsupported_witness :
  SCIMUser_handle_replace demo None
    (VPaths (tuple_items [(("userName", None, None), JStr "bob")]
             ++ [(AttrPath ("displayName", None, None), JStr "Bob");
                 (AttrPath ("active", None, None), JBool false)]))
    (Operation (JStr "replace") JNull JNull) empty_user
  = (Raise (NotImplementedError (Some "Not Implemented")),
     UserState (<["username" := JStr "bob"]> ∅) ∅).
Proof.
  apply (user_replace_stops_at_unsupported demo
           [(("userName", None, None), JStr "bob")]
           (AttrPath ("displayName", None, None)) (JStr "Bob")
           [(AttrPath ("active", None, None), JBool false)]).
  - repeat constructor; eexists; reflexivity.
  - intros p [= <-]. split; [reflexivity|discriminate].
Defined.

(** ** User: the stored email *)

Lemma parse_emails_cases (E : externals) value st :
  parse_emails E value st = (Ok tt, st) /\ truthy value = false
  \/ (exists e, truthy value = true /\ parse_emails E value st = (Raise e, st))
  \/ (exists v, truthy value = true /\ validate_email E v = Ok tt
                /\ parse_emails E value st
                   = (Ok tt, UserState (<["email" := v]> (obj st)) (saved st))).
Proof.
  unfold parse_emails. destruct (truthy value); [|left; auto]. right.
  match goal with |- context [bind (lift ?r) _] =>
    destruct r as [email|e] end; unfold bind, lift.
  - destruct (validate_email E email) as [[]|e] eqn:Hv.
    + right. exists email. auto.
    + left. exists e. auto.
  - left. exists e. auto.
Qed.

(** X14.  Whatever it is given, [parse_emails] writes no attribute but
    email and never saves; when it raises, the state is as before; and on a
    value that is falsy (absent, empty list, empty mapping, empty str) it
    returns without doing anything. *)
Theorem parse_emails_frame (E : externals) value st :
  let r := parse_emails E value st in
  saved (snd r) = saved st
  /\ (forall k, k <> "email" -> obj (snd r) !! k = obj st !! k)
  /\ (forall e, fst r = Raise e -> snd r = st)
  /\ (truthy value = false -> r = (Ok tt, st)).
Proof.
  cbv zeta.
  destruct (parse_emails_cases E value st)
    as [[-> Ht]|[(e & Ht & ->)|(v & Ht & Hv & ->)]]; cbn.
  - repeat split; try reflexivity; try discriminate.
  - repeat split; try reflexivity; try congruence.
  - repeat split; try discriminate; try congruence.
    intros k Hk. apply lookup_insert_ne. congruence.
Qed.

(** X15.  After [parse_emails] has stored an email, the [emails] property
    returns the one-entry list holding it, marked primary, and feeding that
    list back to [parse_emails] succeeds and changes nothing. *)
Theorem emails_round_trip (E : externals) value st st1 :
  truthy value = true ->
  parse_emails E value st = (Ok tt, st1) ->
  exists v,
    obj st1 !! "email" = Some v
    /\ SCIMUser_emails st1
       = (Ok (JList [JDict [("value", v); ("primary", JBool true)]]), st1)
    /\ parse_emails E (JList [JDict [("value", v); ("primary", JBool true)]]) st1
       = (Ok tt, st1).
Proof.
  intros Ht Hp.
  destruct (parse_emails_cases E value st)
    as [[_ Hf]|[(e & _ & He)|(v & _ & Hv & Hs)]]; [congruence|congruence|].
  rewrite Hs in Hp. injection Hp as <-. exists v.
  assert (Hl : (<["email" := v]> (obj st) : gmap string json) !! "email" = Some v)
    by apply lookup_insert_eq.
  split; [exact Hl|]. split.
  - unfold SCIMUser_emails, bind, getattr. cbn [obj]. rewrite Hl. reflexivity.
  - unfold parse_emails. cbn [truthy]. unfold bind, lift.
    change (select_email [JDict [("value", v); ("primary", JBool true)]])
      with (Ok (A := json) v).
    cbv beta iota. rewrite Hv. unfold setattr. cbn [obj saved].
    rewrite insert_insert_eq. reflexivity.
Qed.

Lemma emails_round_trip_witness :
  exists v,
    obj (UserState (<["email" := JStr "a@x.com"]> ∅) ∅) !! "email" = Some v
    /\ SCIMUser_emails (UserState (<["email" := JStr "a@x.com"]> ∅) ∅)
       = (Ok (JList [JDict [("value", v); ("primary", JBool true)]]),
          UserState (<["email" := JStr "a@x.com"]> ∅) ∅)
    /\ parse_emails demo (JList [JDict [("value", v); ("primary", JBool true)]])
         (UserState (<["email" := JStr "a@x.com"]> ∅) ∅)
       = (Ok tt, UserState (<["email" := JStr "a@x.com"]> ∅) ∅).
Proof.
  apply (emails_round_trip demo (JList example_emails) empty_user).
  - reflexivity.
  - reflexivity.
Defined.

(** ** The email selected is the least *)

Lemma string_leb_cases (x y : string) :
  String.leb x y = true <-> x = y \/ String_as_OT.lt x y.
Proof.
  unfold String.leb.
  pose proof (String_as_OT.cmp_eq x y) as He.
  pose proof (String_as_OT.cmp_lt x y) as Hl.
  unfold String_as_OT.cmp in *.
  destruct (String.compare x y) eqn:Hc.
  - split; [intros _; left; apply He; reflexivity|reflexivity].
  - split; [intros _; right; apply Hl; reflexivity|reflexivity].
  - split; [discriminate|]. intros [Hxy|Hxy].
    + apply He in Hxy. discriminate.
    + apply Hl in Hxy. discriminate.
Qed.

Lemma string_leb_trans (x y z : string) :
  String.leb x y = true -> String.leb y z = true -> String.leb x z = true.
Proof.
  rewrite !string_leb_cases. intros [->|Hxy] [->|Hyz]; auto.
  right. eapply String_as_OT.lt_trans; eassumption.
Qed.

Lemma value_le_trans : Transitive value_le.
Proof.
  intros a b c (x & y & Hx & Hy & Hxy) (y' & z & Hy' & Hz & Hyz).
  rewrite Hy in Hy'. injection Hy' as <-.
  exists x, z. repeat split; try assumption.
  eapply string_leb_trans; eassumption.
Qed.

(** The head of a list that ascends by value is below every item of it. *)
Lemma sorted_head_least e rest v e' v' :
  Sorted value_le (e :: rest) ->
  entry_value e = Some v ->
  e' ∈ e :: rest ->
  entry_value e' = Some v' ->
  String.leb v v' = true.
Proof.
  intros Hs Hv Hin Hv'.
  apply (@Sorted_StronglySorted json value_le value_le_trans) in Hs.
  apply StronglySorted_inv in Hs as [_ Hall].
  apply elem_of_cons in Hin as [->|Hin].
  - rewrite Hv in Hv'. injection Hv' as <-.
    apply string_leb_cases. left. reflexivity.
  - rewrite Forall_forall in Hall.
    destruct (Hall e' Hin) as (x & y & Hx & Hy & Hxy).
    rewrite Hv in Hx. rewrite Hv' in Hy.
    injection Hx as <-. injection Hy as <-. exact Hxy.
Qed.

Lemma elem_of_list_filter (f : json -> bool) (l : list json) x :
  x ∈ List.filter f l <-> x ∈ l /\ f x = true.
Proof. rewrite !list_elem_of_In. apply List.filter_In. Qed.

(** X16.  For a non-empty list of entries that are dicts with a str value,
    the value selected belongs to an entry of the list.  As soon as some
    entry is primary the entry selected is primary and its value is below
    the value of every primary entry; when the entry selected is not
    primary, no entry is, and its value is below the value of every entry. *)
Theorem select_email_least (l : list json) :
  l <> [] ->
  Forall (fun e => is_Some (entry_value e)) l ->
  exists e v,
    e ∈ l /\ entry_value e = Some v /\ select_email l = Ok (JStr v)
    /\ (forall e' v', e' ∈ l -> entry_primary e' = true ->
          entry_value e' = Some v' ->
          entry_primary e = true /\ String.leb v v' = true)
    /\ (entry_primary e = false ->
          forall e' v', e' ∈ l -> entry_value e' = Some v' ->
            entry_primary e' = false /\ String.leb v v' = true).
Proof.
  intros Hl Hwf.
  pose proof (Forall_list_filter _ entry_primary l Hwf) as HwfP.
  pose proof (Forall_list_filter _ entry_secondary l Hwf) as HwfS.
  destruct (py_sorted_by_value _ HwfP) as (P & HP & HPp & HPs).
  destruct (py_sorted_by_value _ HwfS) as (S & HS & HSp & HSs).
  assert (Hsel : forall e v, head (P ++ S) = Some e -> entry_value e = Some v ->
                   select_email l = Ok (JStr v)).
  { intros e v Hh Hv. unfold select_email.
    rewrite (filter_result_primary l Hwf). cbn [rbind]. rewrite HP. cbn [rbind].
    rewrite (filter_result_secondary l Hwf). cbn [rbind]. rewrite HS. cbn [rbind].
    destruct (P ++ S) as [|x r]; [discriminate|]. injection Hh as ->.
    apply (entry_value_get e v Hv). }
  assert (HinP : forall x, x ∈ P <-> x ∈ l /\ entry_primary x = true).
  { intros x. rewrite HPp. apply elem_of_list_filter. }
  assert (HinS : forall x, x ∈ S <-> x ∈ l /\ entry_primary x = false).
  { intros x. rewrite HSp, elem_of_list_filter. unfold entry_secondary.
    rewrite negb_true_iff. reflexivity. }
  destruct P as [|e P'].
  - destruct S as [|e S'].
    + exfalso. destruct l as [|x l']; [congruence|].
      destruct (entry_primary x) eqn:Hx.
      * assert (Hin : x ∈ @nil json) by (apply (proj2 (HinP x)); split; [left|exact Hx]).
        inversion Hin.
      * assert (Hin : x ∈ @nil json) by (apply (proj2 (HinS x)); split; [left|exact Hx]).
        inversion Hin.
    + assert (He : e ∈ l /\ entry_primary e = false) by (apply (proj1 (HinS e)); left).
      destruct He as [Hel Hep].
      rewrite Forall_forall in Hwf. destruct (Hwf e Hel) as [v Hv].
      exists e, v. split; [exact Hel|]. split; [exact Hv|].
      split; [apply (Hsel e v); [reflexivity|exact Hv]|]. split.
      * intros e' v' He' Hp' _. exfalso.
        assert (Hin : e' ∈ @nil json) by (apply (proj2 (HinP e')); auto). inversion Hin.
      * intros _ e' v' He' Hv'.
        assert (Hp' : entry_primary e' = false).
        { destruct (entry_primary e') eqn:Hx; [|reflexivity]. exfalso.
          assert (Hin : e' ∈ @nil json) by (apply (proj2 (HinP e')); auto). inversion Hin. }
        split; [exact Hp'|].
        apply (sorted_head_least e S' v e' v' HSs Hv); [|exact Hv'].
        apply (proj2 (HinS e')). auto.
  - assert (He : e ∈ l /\ entry_primary e = true) by (apply (proj1 (HinP e)); left).
    destruct He as [Hel Hep].
    rewrite Forall_forall in Hwf. destruct (Hwf e Hel) as [v Hv].
    exists e, v. split; [exact Hel|]. split; [exact Hv|].
    split; [apply (Hsel e v); [reflexivity|exact Hv]|]. split.
    + intros e' v' He' Hp' Hv'. split; [exact Hep|].
      apply (sorted_head_least e P' v e' v' HPs Hv); [|exact Hv'].
      apply (proj2 (HinP e')). auto.
    + intros Hno. congruence.
Qed.

Lemma select_email_least_witness :
  exists e v,
    e ∈ example_emails /\ entry_value e = Some v
    /\ select_email example_emails = Ok (JStr v)
    /\ (forall e' v', e' ∈ example_emails -> entry_primary e' = true ->
          entry_value e' = Some v' ->
          entry_primary e = true /\ String.leb v v' = true)
    /\ (entry_primary e = false ->
          forall e' v', e' ∈ example_emails -> entry_value e' = Some v' ->
            entry_primary e' = false /\ String.leb v v' = true).
Proof.
  apply (select_email_least example_emails).
  - discriminate.
  - repeat constructor; eexists; reflexivity.
Defined.

(** ** The dispatcher: order, failure, casing *)

(** X17.  Operations are applied in the order given.  Once a first run of
    them has succeeded, the rest is applied to the state it reached; if the
    next operation raises, the whole call raises the same exception with the
    state reached there: what the earlier operations did stays, and the
    later operations are not run. *)
Theorem handle_operations_in_order
    (E : externals) {St : Type} (self : adapter St) pre post st st1 :
  handle_operations E self pre st = (Ok tt, st1) ->
  handle_operations E self (pre ++ post) st = handle_operations E self post st1
  /\ forall o e st2,
       handle_operation E self o st1 = (Raise e, st2) ->
       handle_operations E self (pre ++ o :: post) st = (Raise e, st2).
Proof.
  intros Hpre. unfold handle_operations in *. split.
  - rewrite for_each_app. unfold bind. rewrite Hpre. reflexivity.
  - intros o e st2 Ho. rewrite for_each_app. unfold bind at 1. rewrite Hpre.
    cbn [for_each]. apply bind_raise, Ho.
Qed.

Lemma handle_operations_in_order_witness :
  handle_operations demo (SCIMUser demo)
    ([Operation (JStr "replace") (JStr "userName") (JStr "bob")]
     ++ Operation (JStr "add") (JStr "active") (JStr "x")
     :: [Operation (JStr "replace") (JStr "familyName") (JStr "Doe")])
    empty_user
  = (Raise (NotImplementedError None),
     UserState (<["username" := JStr "bob"]> ∅) (<["username" := JStr "bob"]> ∅)).
Proof.
  apply (handle_operations_in_order demo (SCIMUser demo)
           [Operation (JStr "replace") (JStr "userName") (JStr "bob")]
           [Operation (JStr "replace") (JStr "familyName") (JStr "Doe")]
           empty_user
           (UserState (<["username" := JStr "bob"]> ∅)
                      (<["username" := JStr "bob"]> ∅))).
  - reflexivity.
  - reflexivity.
Defined.

(** X18.  The dispatcher changes the state through a handler only.  An
    operation ends in exactly one of these ways: the exception of the
    normaliser, with the state untouched; [AttributeError] for an op code
    that is not a str, state untouched; the BadRequest for an unknown op
    code, state untouched; the noTarget BadRequest for a remove without a
    normalised path, state untouched; or the outcome of the handler that the
    lower-cased op code names, on the normalised path and value. *)
Theorem handle_operation_raises_or_delegates
    (E : externals) {St : Type} (self : adapter St) (o : operation) st :
  (exists e,
     parse_path_and_value E self (get_path o) (get_value o) = Raise e
     /\ handle_operation E self o st = (Raise e, st))
  \/ (exists path value,
        parse_path_and_value E self (get_path o) (get_value o) = Ok (path, value)
        /\ ((is_str (get_op o) = false
             /\ handle_operation E self o st = (Raise AttributeError, st))
            \/ exists c,
                 get_op o = JStr c
                 /\ (((lower c ∉ VALID_PATCH_OPS)
                      /\ handle_operation E self o st
                         = (Raise (BadRequestError (unknown_op_msg (lower c)) None),
                            st))
                     \/ (lower c = "remove" /\ path = None
                         /\ handle_operation E self o st
                            = (Raise (BadRequestError remove_needs_path_msg
                                        (Some "noTarget")), st))
                     \/ (lower c = "add"
                         /\ handle_operation E self o st
                            = handle_add self path value o st)
                     \/ (lower c = "remove" /\ path <> None
                         /\ handle_operation E self o st
                            = handle_remove self path value o st)
                     \/ (lower c = "replace"
                         /\ handle_operation E self o st
                            = handle_replace self path value o st)))).
Proof.
  destruct (parse_path_and_value E self (get_path o) (get_value o))
    as [[path value]|e] eqn:Hn.
  2:{ left. exists e. split; [reflexivity|].
      apply handle_operation_normalise_raise, Hn. }
  right. exists path, value. split; [reflexivity|].
  destruct (get_op o) as [| | |c| |] eqn:Hc;
    try (left; split; [reflexivity|]; unfold handle_operation;
         rewrite (bind_lift_ok _ _ _ _ Hn), Hc; reflexivity).
  right. exists c. split; [reflexivity|].
  rewrite (handle_operation_normalised E self o path value c st Hn Hc).
  destruct (decide (lower c ∈ VALID_PATCH_OPS)) as [Hv|Hv].
  - rewrite bool_decide_eq_true_2 by exact Hv. cbn [negb].
    apply valid_op_cases in Hv. destruct Hv as [-> | [-> | ->]].
    + right. right. left. split; reflexivity.
    + destruct path as [p|].
      * right. right. right. left. split; [reflexivity|].
        split; [discriminate|reflexivity].
      * right. left. split; [reflexivity|]. split; reflexivity.
    + right. right. right. right. split; reflexivity.
  - rewrite bool_decide_eq_false_2 by exact Hv. left. split; [exact Hv|reflexivity].
Qed.

Lemma lower_ascii_idempotent (c : ascii) :
  lower_ascii (lower_ascii c) = lower_ascii c.
Proof. destruct c as [[] [] [] [] [] [] [] []]; reflexivity. Qed.

Lemma lower_idempotent (s : string) : lower (lower s) = lower s.
Proof.
  induction s as [|c s IH]; simpl; [reflexivity|].
  rewrite lower_ascii_idempotent, IH. reflexivity.
Qed.

(** X19.  For the User and the Group adapters the casing of the op code
    makes no difference at all: an operation and the same operation with its
    op code lower-cased have the same outcome and reach the same state. *)
Theorem op_code_casing_irrelevant (E : externals) (o : operation) (c : string) :
  get_op o = JStr c ->
  (forall st, handle_operation E (SCIMUser E) o st
              = handle_operation E (SCIMUser E) (with_op o (JStr (lower c))) st)
  /\ (forall st, handle_operation E (SCIMGroup E) o st
                 = handle_operation E (SCIMGroup E) (with_op o (JStr (lower c))) st).
Proof.
  intros Hc. split; intros st.
  - destruct (parse_path_and_value E (SCIMUser E) (get_path o) (get_value o))
      as [[path value]|e] eqn:Hn.
    + rewrite (handle_operation_normalised E (SCIMUser E) o path value c st Hn Hc).
      rewrite (handle_operation_normalised E (SCIMUser E)
                 (with_op o (JStr (lower c))) path value (lower c) st Hn eq_refl).
      rewrite lower_idempotent.
      destruct (bool_decide (lower c ∈ VALID_PATCH_OPS)) eqn:Hv; cbn [negb];
        [|reflexivity].
      apply bool_decide_eq_true_1, valid_op_cases in Hv.
      destruct Hv as [-> | [-> | ->]]; reflexivity.
    + rewrite (handle_operation_normalise_raise E (SCIMUser E) o e st Hn).
      symmetry. apply handle_operation_normalise_raise, Hn.
  - destruct (parse_path_and_value E (SCIMGroup E) (get_path o) (get_value o))
      as [[path value]|e] eqn:Hn.
    + rewrite (handle_operation_normalised E (SCIMGroup E) o path value c st Hn Hc).
      rewrite (handle_operation_normalised E (SCIMGroup E)
                 (with_op o (JStr (lower c))) path value (lower c) st Hn eq_refl).
      rewrite lower_idempotent.
      destruct (bool_decide (lower c ∈ VALID_PATCH_OPS)) eqn:Hv; cbn [negb];
        [|reflexivity].
      apply bool_decide_eq_true_1, valid_op_cases in Hv.
      destruct Hv as [-> | [-> | ->]]; reflexivity.
    + rewrite (handle_operation_normalise_raise E (SCIMGroup E) o e st Hn).
      symmetry. apply handle_operation_normalise_raise, Hn.
Qed.

Lemma op_code_casing_irrelevant_witness :
  handle_operation demo (SCIMGroup demo)
    (Operation (JStr "ADD") (JStr "members") (JList [JDict [("value", JStr "2")]]))
    (group_of [1%Z] [1%Z; 2%Z])
  = handle_operation demo (SCIMGroup demo)
      (with_op
         (Operation (JStr "ADD") (JStr "members")
                    (JList [JDict [("value", JStr "2")]]))
         (JStr (lower "ADD")))
      (group_of [1%Z] [1%Z; 2%Z]).
Proof.
  apply (op_code_casing_irrelevant demo
           (Operation (JStr "ADD") (JStr "members")
                      (JList [JDict [("value", JStr "2")]])) "ADD").
  reflexivity.
Defined.

(** ** The mapping built for a path-less operation *)

Lemma dict_setitem_keys d k v :
  map fst (dict_setitem d k v)
  = if bool_decide (k ∈ map fst d) then map fst d else map fst d ++ [k].
Proof.
  induction d as [|[k' v'] r IH]; simpl; [reflexivity|].
  destruct (decide (k' = k)) as [->|Hne]; simpl.
  - rewrite bool_decide_eq_true_2 by left. reflexivity.
  - rewrite IH. destruct (decide (k ∈ map fst r)) as [Hin|Hin].
    + rewrite !bool_decide_eq_true_2; [reflexivity|right; exact Hin|exact Hin].
    + rewrite !bool_decide_eq_false_2; [reflexivity| |exact Hin].
      intros H. apply elem_of_cons in H as [->|H]; [congruence|contradiction].
Qed.

Lemma dict_setitem_NoDup d k v :
  NoDup (map fst d) -> NoDup (map fst (dict_setitem d k v)).
Proof.
  intros Hn. rewrite dict_setitem_keys.
  destruct (decide (k ∈ map fst d)) as [Hin|Hin].
  - rewrite bool_decide_eq_true_2 by exact Hin. exact Hn.
  - rewrite bool_decide_eq_false_2 by exact Hin.
    apply NoDup_app. split; [exact Hn|]. split.
    + intros x Hx Hk. apply list_elem_of_singleton in Hk as ->. contradiction.
    + apply NoDup_singleton.
Qed.

Lemma paths_lookup_setitem d k v k' :
  paths_lookup (dict_setitem d k v) k'
  = if decide (k = k') then Some v else paths_lookup d k'.
Proof.
  induction d as [|[k0 v0] r IH]; simpl.
  - destruct (decide (k = k')); reflexivity.
  - destruct (decide (k0 = k)) as [->|Hne]; simpl.
    + destruct (decide (k = k')); reflexivity.
    + rewrite IH. destruct (decide (k0 = k')) as [->|Hne'].
      * rewrite decide_False by congruence. reflexivity.
      * reflexivity.
Qed.

Section PathlessMapping.
Context (E : externals) {St : Type} (self : adapter St).

Lemma split_items_NoDup d : forall acc nv,
  split_items E self d acc = Ok nv ->
  NoDup (map fst acc) -> NoDup (map fst nv).
Proof.
  induction d as [|[k v] r IH]; intros acc nv; cbn [split_items].
  - intros [= <-]. auto.
  - destruct (split_path E self (JStr k)) as [p|e]; cbn [rbind]; [|discriminate].
    intros Hs Hn. apply (IH _ _ Hs). apply dict_setitem_NoDup, Hn.
Qed.

Lemma split_items_lookup_other d p : forall acc nv,
  split_items E self d acc = Ok nv ->
  Forall (fun kv => split_path E self (JStr (fst kv)) <> Ok p) d ->
  paths_lookup nv p = paths_lookup acc p.
Proof.
  induction d as [|[k v] r IH]; intros acc nv; cbn [split_items].
  - intros [= <-] _. reflexivity.
  - destruct (split_path E self (JStr k)) as [q|e] eqn:Hq; cbn [rbind];
      [|discriminate].
    intros Hs Hall. inversion Hall as [|? ? Hk Hr]; subst. cbn [fst] in Hk.
    rewrite (IH _ _ Hs Hr), paths_lookup_setitem.
    rewrite decide_False by congruence. reflexivity.
Qed.

Lemma split_items_lookup_last d1 k v d2 p : forall acc nv,
  split_items E self (d1 ++ (k, v) :: d2) acc = Ok nv ->
  split_path E self (JStr k) = Ok p ->
  Forall (fun kv => split_path E self (JStr (fst kv)) <> Ok p) d2 ->
  paths_lookup nv p = Some v.
Proof.
  induction d1 as [|[k1 v1] r IH]; intros acc nv; cbn [split_items app].
  - intros Hs Hp Hall. rewrite Hp in Hs. cbn [rbind] in Hs.
    rewrite (split_items_lookup_other d2 p _ _ Hs Hall), paths_lookup_setitem.
    rewrite decide_True by reflexivity. reflexivity.
  - destruct (split_path E self (JStr k1)) as [q|e]; cbn [rbind]; [|discriminate].
    intros Hs. apply (IH _ _ Hs).
Qed.

End PathlessMapping.

(** X20.  The mapping that the normaliser builds for a path-less operation
    has no path twice; and a path reads there as the value of the last key of
    the request that resolves to it. *)
Theorem normalised_mapping_keys
    (E : externals) {St : Type} (self : adapter St) (path : json) d nv :
  parse_path_and_value E self path (JDict d) = Ok (None, VPaths nv) ->
  NoDup (map fst nv)
  /\ forall d1 k x d2 p,
       d = d1 ++ (k, x) :: d2 ->
       split_path E self (JStr k) = Ok p ->
       Forall (fun kv => split_path E self (JStr (fst kv)) <> Ok p) d2 ->
       paths_lookup nv p = Some x.
Proof.
  intros Hn. unfold parse_path_and_value in Hn.
  destruct (negb (truthy path)).
  - destruct (split_items E self d []) as [nv'|e] eqn:Hs; cbn [rbind] in Hn;
      [|discriminate].
    injection Hn as <-. split.
    + apply (split_items_NoDup E self d [] nv' Hs). constructor.
    + intros d1 k x d2 p -> Hp Hall.
      apply (split_items_lookup_last E self d1 k x d2 p [] nv' Hs Hp Hall).
  - destruct (split_path E self path); cbn [rbind] in Hn; discriminate.
Qed.

Lemma normalised_mapping_keys_witness :
  NoDup (map fst [(AttrPath ("userName", None, None), JStr "a");
                  (AttrPath ("active", None, None), JStr "b")])
  /\ forall d1 k x d2 p,
       [("userName", JStr "a"); ("active", JStr "b")] = d1 ++ (k, x) :: d2 ->
       split_path demo (SCIMUser demo) (JStr k) = Ok p ->
       Forall (fun kv => split_path demo (SCIMUser demo) (JStr (fst kv)) <> Ok p) d2 ->
       paths_lookup [(AttrPath ("userName", None, None), JStr "a");
                     (AttrPath ("active", None, None), JStr "b")] p = Some x.
Proof.
  apply (normalised_mapping_keys demo (SCIMUser demo) JNull
           [("userName", JStr "a"); ("active", JStr "b")]).
  reflexivity.
Defined.

(** ** Full-resource ingestion on a User *)

Section FromDict.
Context (E : externals).
Context (set_password : json -> gmap string json -> gmap string json).

Lemma from_dict_names d name st :
  dict_get_default d "name" (JDict []) = JDict name ->
  SCIMUser_from_dict E set_password d st
  = bind (parse_emails E (dict_get_default d "emails" (JList [])))
      (fun _ =>
         bind (if truthy (dict_get d "password")
               then call_set_password set_password (dict_get d "password")
               else ret tt)
           (fun _ =>
              match dict_get d "active" with
              | JNull => ret tt
              | _ => setattr "is_active" (dict_get d "active")
              end))
      (UserState (names_ingested d name (obj st)) (saved st)).
Proof.
  intros Hname. unfold SCIMUser_from_dict. rewrite Hname.
  unfold SCIMMixin_from_dict.
  unfold bind at 1. unfold setattr at 1.
  unfold bind at 1. unfold setattr at 1.
  unfold bind at 1. unfold getattr at 1. cbn [obj saved].
  rewrite lookup_insert_eq.
  unfold bind at 1. unfold setattr at 1.
  unfold bind at 1. unfold lift at 1. cbn [py_get].
  unfold bind at 1. unfold setattr at 1.
  unfold bind at 1. unfold lift at 1.
  unfold bind at 1. unfold setattr at 1. cbn [obj saved].
  reflexivity.
Qed.

End FromDict.

(** X21.  [from_dict] on a dict whose name is a mapping or missing, without
    emails (missing, null or empty) and without a password, returns: the
    external id, username, scim_username and both names are overwritten, by
    the empty str where the dict has nothing; the email is left as it was;
    is_active is assigned when the dict says anything but null, false
    included, and left as it was otherwise; nothing is saved. *)
Theorem from_dict_without_emails
    (E : externals) (set_password : json -> gmap string json -> gmap string json)
    d name st :
  dict_get_default d "name" (JDict []) = JDict name ->
  truthy (dict_get_default d "emails" (JList [])) = false ->
  truthy (dict_get d "password") = false ->
  exists o',
    SCIMUser_from_dict E set_password d st = (Ok tt, UserState o' (saved st))
    /\ o' = match dict_get d "active" with
            | JNull => names_ingested d name (obj st)
            | a => <["is_active" := a]> (names_ingested d name (obj st))
            end
    /\ o' !! "username" = Some (or_empty (dict_get d "userName"))
    /\ o' !! "email" = obj st !! "email"
    /\ o' !! "is_active" = match dict_get d "active" with
                           | JNull => obj st !! "is_active"
                           | a => Some a
                           end.
Proof.
  intros Hname Hem Hpw. rewrite (from_dict_names E set_password d name st Hname).
  set (o1 := names_ingested d name (obj st)).
  assert (Hskip : parse_emails E (dict_get_default d "emails" (JList []))
                    (UserState o1 (saved st)) = (Ok tt, UserState o1 (saved st))).
  { unfold parse_emails. rewrite Hem. reflexivity. }
  rewrite (bind_ok _ _ _ _ _ Hskip). rewrite Hpw.
  assert (Hu : o1 !! "username" = Some (or_empty (dict_get d "userName"))).
  { unfold o1, names_ingested.
    rewrite !lookup_insert_ne by discriminate. apply lookup_insert_eq. }
  assert (He : o1 !! "email" = obj st !! "email").
  { unfold o1, names_ingested. rewrite !lookup_insert_ne by discriminate.
    reflexivity. }
  assert (Ha1 : o1 !! "is_active" = obj st !! "is_active").
  { unfold o1, names_ingested. rewrite !lookup_insert_ne by discriminate.
    reflexivity. }
  destruct (dict_get d "active") as [|b|n|x|x|x] eqn:Ha.
  - exists o1. repeat split; assumption.
  - exists (<["is_active" := JBool b]> o1). split; [reflexivity|].
    split; [reflexivity|].
    rewrite !lookup_insert_ne by discriminate. rewrite lookup_insert_eq. auto.
  - exists (<["is_active" := JNum n]> o1). split; [reflexivity|].
    split; [reflexivity|].
    rewrite !lookup_insert_ne by discriminate. rewrite lookup_insert_eq. auto.
  - exists (<["is_active" := JStr x]> o1). split; [reflexivity|].
    split; [reflexivity|].
    rewrite !lookup_insert_ne by discriminate. rewrite lookup_insert_eq. auto.
  - exists (<["is_active" := JList x]> o1). split; [reflexivity|].
    split; [reflexivity|].
    rewrite !lookup_insert_ne by discriminate. rewrite lookup_insert_eq. auto.
  - exists (<["is_active" := JDict x]> o1). split; [reflexivity|].
    split; [reflexivity|].
    rewrite !lookup_insert_ne by discriminate. rewrite lookup_insert_eq. auto.
Qed.

Lemma from_dict_without_emails_witness :
  exists o',
    SCIMUser_from_dict demo (fun _ o => o)
      [("userName", JStr "bob"); ("active", JBool false)]
      (UserState (<["email" := JStr "old@x.com"]> ∅) ∅)
    = (Ok tt, UserState o' ∅)
    /\ o' !! "username" = Some (JStr "bob")
    /\ o' !! "email" = Some (JStr "old@x.com")
    /\ o' !! "is_active" = Some (JBool false).
Proof.
  destruct (from_dict_without_emails demo (fun _ o => o)
              [("userName", JStr "bob"); ("active", JBool false)] []
              (UserState (<["email" := JStr "old@x.com"]> ∅) ∅)
              eq_refl eq_refl eq_refl)
    as (o' & H1 & _ & H3 & H4 & H5).
  exists o'. split; [exact H1|]. split; [exact H3|]. split; [exact H4|exact H5].
Defined.

(** X22.  When the emails of the dict are a non-empty list whose selected
    value the validator refuses, [from_dict] raises what the validator
    raised after it has overwritten the external id, the username and the
    names in memory; the email, the password and is_active are not reached,
    and nothing is saved. *)
Theorem from_dict_invalid_email
    (E : externals) (set_password : json -> gmap string json -> gmap string json)
    d name l v e st :
  dict_get_default d "name" (JDict []) = JDict name ->
  dict_get_default d "emails" (JList []) = JList l ->
  l <> [] ->
  select_email l = Ok v ->
  validate_email E v = Raise e ->
  SCIMUser_from_dict E set_password d st
  = (Raise e, UserState (names_ingested d name (obj st)) (saved st)).
Proof.
  intros Hname Hem Hl Hs Hv.
  rewrite (from_dict_names E set_password d name st Hname), Hem.
  apply bind_raise. rewrite (parse_emails_selected E l v _ Hl Hs), Hv.
  reflexivity.
Qed.

Lemma from_dict_invalid_email_witness :
  SCIMUser_from_dict demo (fun _ o => <["password" := JStr "hash"]> o)
    [("userName", JStr "bob");
     ("emails", JList [JDict [("value", JStr "not an address")]]);
     ("password", JStr "secret"); ("active", JBool true)]
    empty_user
  = (Raise invalid_email,
     UserState
       (names_ingested
          [("userName", JStr "bob");
           ("emails", JList [JDict [("value", JStr "not an address")]]);
           ("password", JStr "secret"); ("active", JBool true)] [] ∅) ∅).
Proof.
  apply (from_dict_invalid_email demo _ _ []
           [JDict [("value", JStr "not an address")]] (JStr "not an address")).
  - reflexivity.
  - reflexivity.
  - discriminate.
  - reflexivity.
  - reflexivity.
Defined.

(** X23.  When the name of the dict is present but is not a mapping (null,
    for one), [from_dict] raises [AttributeError] after it has overwritten the
    external id, username and scim_username in memory; no name, email,
    password or is_active is assigned, and nothing is saved. *)
Theorem from_dict_name_not_mapping
    (E : externals) (set_password : json -> gmap string json -> gmap string json)
    d st :
  is_dict (dict_get_default d "name" (JDict [])) = false ->
  SCIMUser_from_dict E set_password d st
  = (Raise AttributeError,
     UserState
       (<["scim_username" := or_empty (dict_get d "userName")]>
          (<["username" := or_empty (dict_get d "userName")]>
             (<["scim_external_id" := or_empty (dict_get d "externalId")]>
                (obj st))))
       (saved st)).
Proof.
  intros Hname. unfold SCIMUser_from_dict, SCIMMixin_from_dict.
  unfold bind at 1. unfold setattr at 1.
  unfold bind at 1. unfold setattr at 1.
  unfold bind at 1. unfold getattr at 1. cbn [obj saved].
  rewrite lookup_insert_eq.
  unfold bind at 1. unfold setattr at 1.
  unfold bind at 1. unfold lift at 1. cbn [obj saved].
  destruct (dict_get_default d "name" (JDict [])); try discriminate;
    reflexivity.
Qed.

Lemma from_dict_name_not_mapping_witness :
  SCIMUser_from_dict demo (fun _ o => o)
    [("userName", JStr "bob"); ("name", JNull)] empty_user
  = (Raise AttributeError,
     UserState
       (<["scim_username" := JStr "bob"]>
          (<["username" := JStr "bob"]>
             (<["scim_external_id" := JStr EmptyString]> ∅))) ∅).
Proof.
  apply (from_dict_name_not_mapping demo (fun _ o => o)
           [("userName", JStr "bob"); ("name", JNull)] empty_user).
  reflexivity.
Defined.

Lemma obj_only_getattr name : obj_only (getattr name).
Proof.
  intros st st' H. unfold getattr. rewrite H.
  destruct (obj st' !! name); simpl; auto.
Qed.

Lemma obj_only_call_set_password
    (set_password : json -> gmap string json -> gmap string json) text :
  obj_only (call_set_password set_password text).
Proof. intros st st' H. unfold call_set_password. simpl. rewrite H. auto. Qed.

(** X24.  Whatever the dict, and whether it returns or raises, [from_dict]
    on a User never saves: the saved row is the one before. *)
Theorem from_dict_never_saves
    (E : externals) (set_password : json -> gmap string json -> gmap string json)
    d st :
  saved (snd (SCIMUser_from_dict E set_password d st)) = saved st.
Proof.
  assert (H : obj_only (SCIMUser_from_dict E set_password d)).
  { unfold SCIMUser_from_dict, SCIMMixin_from_dict.
    repeat first
      [ apply obj_only_bind; [|intros ?]
      | apply obj_only_setattr
      | apply obj_only_getattr
      | apply obj_only_lift
      | apply obj_only_parse_emails
      | apply obj_only_ret ].
    - destruct (truthy (dict_get d "password"));
        [apply obj_only_call_set_password|apply obj_only_ret].
    - destruct (dict_get d "active");
        first [apply obj_only_ret|apply obj_only_setattr]. }
  apply (H st st eq_refl).
Qed.

(** ** Group: no path-less operation *)

(** X25.  A Group supports no path-less operation: when the normaliser
    hands back no path (a mapping value without a path), an add or a replace
    is refused with NotImplemented and a remove with the noTarget BadRequest,
    and the state is as before. *)
Theorem group_pathless_refused
    (E : externals) (o : operation) (c : string) value st :
  get_op o = JStr c ->
  lower c ∈ VALID_PATCH_OPS ->
  parse_path_and_value E (SCIMGroup E) (get_path o) (get_value o)
    = Ok (None, value) ->
  handle_operation E (SCIMGroup E) o st
  = (Raise (if String.eqb (lower c) "remove"
            then BadRequestError remove_needs_path_msg (Some "noTarget")
            else NotImplementedError None), st).
Proof.
  intros Hc Hv Hn.
  rewrite (handle_operation_normalised E (SCIMGroup E) o None value c st Hn Hc).
  rewrite bool_decide_eq_true_2 by exact Hv. cbn [negb].
  apply valid_op_cases in Hv. destruct Hv as [-> | [-> | ->]]; reflexivity.
Qed.

Lemma group_pathless_refused_witness :
  handle_operation demo (SCIMGroup demo)
    (Operation (JStr "add") JNull
       (JDict [("members", JList [JDict [("value", JStr "2")]])]))
    (group_of [1%Z] [1%Z; 2%Z])
  = (Raise (NotImplementedError None), group_of [1%Z] [1%Z; 2%Z]).
Proof.
  apply (group_pathless_refused demo
           (Operation (JStr "add") JNull
              (JDict [("members", JList [JDict [("value", JStr "2")]])]))
           "add"
           (VPaths [(AttrPath ("members", None, None),
                     JList [JDict [("value", JStr "2")]])])).
  - reflexivity.
  - unfold VALID_PATCH_OPS. cbn. set_solver.
  - reflexivity.
Defined.
